(** * farm-api: expense ingestion and animal summary

    A shallow embedding of the route handlers of the farm management
    backend (routes/expenses.ts, routes/animals.ts, utils/errorLogger.ts)
    and the properties its specification states about them.

    Conventions of the embedding:
    - a JavaScript value is a [jsval]; an absent object key reads as
      [JUndefined]; numbers are exact rationals extended with NaN and the
      two infinities (the rounding of IEEE doubles is not modelled);
    - a row delivered by the store is a finite map from column names to
      values, so that the two spellings of a column ("Paid By", paidBy)
      are two distinct keys;
    - the hosted store is an explicit state threaded through the handlers;
      every call to it is recorded in a trace and may fail, the failures
      being scheduled by a list of booleans carried in the state. *)

From Stdlib Require Import ZArith QArith Qreduction List String Ascii Bool Lia.
From stdpp Require Import base option list strings pretty gmap.

Local Open Scope string_scope.
Local Open Scope list_scope.

(** ** JavaScript values *)

Module JS.

Inductive jsnum : Type :=
| NaN
| Inf (negative : bool)
| Fin (q : Q).

Inductive jsval : Type :=
| JUndefined
| JNull
| JBool (b : bool)
| JNum (n : jsnum)
| JStr (s : string).

Global Instance Q_eq_dec : EqDecision Q.
Proof. solve_decision. Defined.
Global Instance jsnum_eq_dec : EqDecision jsnum.
Proof. solve_decision. Defined.
Global Instance jsval_eq_dec : EqDecision jsval.
Proof. solve_decision. Defined.

Definition num (z : Z) : jsval := JNum (Fin (inject_Z z)).

(** ToBoolean: undefined, null, false, 0, NaN and the empty string are
    falsy, everything else is truthy. *)
Definition truthy (v : jsval) : bool :=
  match v with
  | JUndefined | JNull => false
  | JBool b => b
  | JNum NaN => false
  | JNum (Inf _) => true
  | JNum (Fin q) => negb (Qeq_bool q 0)
  | JStr s => negb (String.eqb s "")
  end.

(** [a || b] *)
Definition or (a b : jsval) : jsval := if truthy a then a else b.

(** An array is an object, and every object is truthy, the empty array
    included. [or_array a b] is [a || b] for an array [a]. *)
Definition truthy_array {A} (a : list A) : bool := true.
Definition or_array {A} (a b : list A) : list A :=
  if truthy_array a then a else b.

(** [obj[key]] on a row object. *)
Definition prop (obj : gmap string jsval) (key : string) : jsval :=
  default JUndefined (obj !! key).

(** *** Character classes and numeric prefixes *)

Definition isDigit (c : ascii) : bool :=
  let n := nat_of_ascii c in (48 <=? n)%nat && (n <=? 57)%nat.

(** The ASCII members of StrWhiteSpaceChar: TAB, LF, VT, FF, CR, SP. *)
Definition isWhiteSpace (c : ascii) : bool :=
  let n := nat_of_ascii c in
  ((9 <=? n)%nat && (n <=? 13)%nat) || (n =? 32)%nat.

Fixpoint trimStart (l : list ascii) : list ascii :=
  match l with
  | c :: l' => if isWhiteSpace c then trimStart l' else l
  | [] => []
  end.

(** Longest prefix of characters satisfying [p], and the rest. *)
Fixpoint span (p : ascii -> bool) (l : list ascii) : list ascii * list ascii :=
  match l with
  | c :: l' =>
      if p c then let '(ds, r) := span p l' in (c :: ds, r) else ([], l)
  | [] => ([], [])
  end.

Definition readSign (l : list ascii) : bool * list ascii :=
  match l with
  | "-"%char :: r => (true, r)
  | "+"%char :: r => (false, r)
  | _ => (false, l)
  end.

Definition signed (negative : bool) (z : Z) : Z :=
  if negative then (- z)%Z else z.

Definition digitValue (c : ascii) : Z :=
  let n := nat_of_ascii c in
  if isDigit c then Z.of_nat n - 48
  else if (97 <=? n)%nat then Z.of_nat n - 87   (* a-f *)
  else Z.of_nat n - 55.                          (* A-F *)

Definition radixValue (radix : Z) (ds : list ascii) : Z :=
  fold_left (fun acc c => (radix * acc + digitValue c)%Z) ds 0%Z.

Definition isHexDigit (c : ascii) : bool :=
  let n := nat_of_ascii c in
  isDigit c || ((97 <=? n)%nat && (n <=? 102)%nat)
            || ((65 <=? n)%nat && (n <=? 70)%nat).

(** [parseInt(s)] with no radix argument: leading white space is
    skipped, a sign is read, a 0x or 0X prefix selects radix 16, and the
    longest run of digits is converted; [None] stands for NaN. *)
Definition parseInt (s : string) : option Z :=
  let '(negative, r) := readSign (trimStart (list_ascii_of_string s)) in
  let '(radix, isd, r') :=
    match r with
    | "0"%char :: "x"%char :: r'' => (16%Z, isHexDigit, r'')
    | "0"%char :: "X"%char :: r'' => (16%Z, isHexDigit, r'')
    | _ => (10%Z, isDigit, r)
    end in
  match fst (span isd r') with
  | [] => None
  | ds => Some (signed negative (radixValue radix ds))
  end.

Definition isNaN (n : option Z) : bool :=
  match n with None => true | Some _ => false end.

(** ExponentPart of a StrDecimalLiteral; 0 when there is none. *)
Definition readExponent (l : list ascii) : Z :=
  match l with
  | c :: r =>
      if Ascii.eqb c "e" || Ascii.eqb c "E" then
        let '(negative, r') := readSign r in
        match fst (span isDigit r') with
        | [] => 0%Z
        | ds => signed negative (radixValue 10 ds)
        end
      else 0%Z
  | [] => 0%Z
  end.

(** [m * 10^e] as a reduced rational. *)
Definition scale10 (m e : Z) : Q :=
  Qred (if (0 <=? e)%Z then inject_Z (m * 10 ^ e)
        else Qmake m (Z.to_pos (10 ^ (- e)))).

Definition isPrefix (p l : list ascii) : bool :=
  bool_decide (take (length p) l = p).

Definition parseFloatChars (l : list ascii) : jsnum :=
  let '(negative, r) := readSign (trimStart l) in
  if isPrefix (list_ascii_of_string "Infinity") r then Inf negative
  else
    let '(ip, r1) := span isDigit r in
    let '(fp, r2) :=
      match r1 with
      | "."%char :: r' => span isDigit r'
      | _ => ([], r1)
      end in
    match ip ++ fp with
    | [] => NaN
    | ds =>
        Fin (scale10 (signed negative (radixValue 10 ds))
                     (readExponent r2 - Z.of_nat (length fp)))
    end.

(** [parseFloat(v)]: the argument is first converted to a string. The
    string of a number parses back to that number; "undefined", "null",
    "true" and "false" have no numeric prefix. *)
Definition parseFloat (v : jsval) : jsnum :=
  match v with
  | JStr s => parseFloatChars (list_ascii_of_string s)
  | JNum n => n
  | _ => NaN
  end.

(** *** String helpers *)

(** [s.split("/")] *)
Fixpoint split (sep : ascii) (s : string) : list string :=
  match s with
  | EmptyString => [EmptyString]
  | String c s' =>
      if Ascii.eqb c sep then EmptyString :: split sep s'
      else match split sep s' with
           | p :: ps => String c p :: ps
           | [] => [String c EmptyString]
           end
  end.

(** [s.padStart(targetLength, fill)] for a one character [fill]. *)
Definition padStart (targetLength : nat) (fill : ascii) (s : string) : string :=
  string_of_list_ascii (repeat fill (targetLength - String.length s)) ++ s.

End JS.

Import JS.

(** ** Shared types (shared/expense-types.ts) *)

Module ExpenseTypes.

(** An [ExpenseRecord] as it travels in a request body or a response: a
    key the object lacks reads as [JUndefined]. *)
Record ExpenseRecord : Type := {
  id : jsval;
  date : jsval;
  type : jsval;
  description : jsval;
  amount : jsval;
  paidBy : jsval;
  category : jsval;
  subCategory : jsval;
  source : jsval;
  notes : jsval;
}.

End ExpenseTypes.

(** ** Reading expenses (routes/expenses.ts, readExpenses) *)

Module Reader.
Import ExpenseTypes.

(** What the reader writes to the console. *)
Inductive Console : Type :=
| Warn_InvalidDateFormat (dateStr : jsval).

(** [/^\d{4}-\d{2}-\d{2}$/.test(s)] *)
Definition isIsoDate (s : string) : bool :=
  match list_ascii_of_string s with
  | [y1; y2; y3; y4; h1; m1; m2; h2; d1; d2] =>
      forallb isDigit [y1; y2; y3; y4; m1; m2; d1; d2]
      && Ascii.eqb h1 "-" && Ascii.eqb h2 "-"
  | _ => false
  end.

(** The statement [if (dateStr) { try { ... } catch (e) { ... } }]: the
    value of [formattedDate] afterwards, and the console output.
    [today] is the initial value of [formattedDate],
    [new Date().toISOString().split("T")[0]].
    The test coerces its argument to a string, and the string of a
    number or of a boolean never matches the pattern; [split] exists on
    strings only, so every other truthy value raises a TypeError, which
    the handler catches and reports. *)
Definition formatDate (today : string) (dateStr : jsval) : string * list Console :=
  if truthy dateStr then
    match dateStr with
    | JStr s =>
        if isIsoDate s then (s, [])
        else
          match split "/" s with
          | [month; day; year] =>
              let paddedMonth := padStart 2 "0" month in
              let paddedDay := padStart 2 "0" day in
              ((year ++ "-" ++ paddedMonth ++ "-" ++ paddedDay)%string, [])
          | _ => (today, [])
          end
    | _ => (today, [Warn_InvalidDateFormat dateStr])
    end
  else (today, []).

(** The callback of [expenses.map((item, index) => ...)]. The [id] of
    the result holds the operand of [String(...)]. *)
Definition transform (today : string) (index : nat) (item : gmap string jsval)
  : ExpenseRecord * list Console :=
  let dateStr := or (prop item "Date") (prop item "date") in
  let '(formattedDate, out) := formatDate today dateStr in
  ({| id := or (prop item "id") (num (Z.of_nat index + 1));
      date := JStr formattedDate;
      type := or (or (prop item "Type") (prop item "type")) (JStr "Expense");
      description :=
        or (or (prop item "Description") (prop item "description"))
           (JStr "No description");
      amount :=
        JNum (parseFloat (or (or (prop item "Amount") (prop item "amount")) (num 0)));
      paidBy := or (or (prop item "Paid By") (prop item "paidBy")) (JStr "Unknown");
      category := or (or (prop item "Category") (prop item "category")) (JStr "Other");
      subCategory :=
        or (or (prop item "Sub-Category") (prop item "subCategory")) (JStr "General");
      source := or (or (prop item "Source") (prop item "source")) (JStr "Unknown");
      notes := or (or (prop item "Notes") (prop item "notes")) (JStr "");
   |}, out).

Fixpoint mapi (today : string) (index : nat) (rows : list (gmap string jsval))
  : list ExpenseRecord * list Console :=
  match rows with
  | [] => ([], [])
  | item :: rows' =>
      let '(v, o) := transform today index item in
      let '(vs, os) := mapi today (S index) rows' in
      (v :: vs, o ++ os)
  end.

(** [readExpenses]: [expenses] is the data returned by the select on
    allexpenses, [None] when the store delivered none. *)
Definition readExpenses (today : string) (expenses : option (list (gmap string jsval)))
  : list ExpenseRecord * list Console :=
  match expenses with
  | None => ([], [])
  | Some rows => mapi today 0 rows
  end.

End Reader.

(** ** The record store and the error logger *)

Module Store.

(** How a store call reports failure: [PGRST116] is what [.single()]
    answers when the query selects no row or several rows;
    [Unavailable] stands for every failure of the call itself. *)
Inductive StoreError : Type :=
| PGRST116
| Unavailable.

Inductive Result (E A : Type) : Type :=
| Ok (a : A)
| Err (e : E).
Arguments Ok {E A} a.
Arguments Err {E A} e.

Record CategoryRow : Type := {
  cat_id : Z;
  cat_name : jsval;
  cat_subCategories : list jsval;
}.

(** A row of the expenses table; [row_id] is assigned by the store. *)
Record ExpenseRow : Type := {
  row_id : Z;
  row_description : jsval;
  row_amount : jsval;
  row_type : jsval;
  row_date : jsval;
  row_paidBy : jsval;
  row_categoryId : Z;
  row_subCategory : jsval;
  row_source : jsval;
  row_notes : jsval;
}.

Inductive Level : Type := info | warn | error | debug.

(** What a log entry carries as [details]. *)
Inductive Details : Type :=
| NoDetails
| StoreErrorDetails (e : StoreError)
| AmountAndCategory (amount : jsval) (categoryId : Z)
| DescriptionAndError (description : jsval) (e : StoreError).

(** A message built by a template literal is kept as the list of its
    parts; the timestamp and the request columns of a log row are left
    out. *)
Record LogEntry : Type := {
  log_level : Level;
  log_message : list jsval;
  log_source : string;
  log_details : Details;
}.

Inductive Call : Type :=
| SelectCategoryByName (name : jsval)
| InsertCategory (name : jsval) (subCategories : list jsval)
| InsertExpense
| InsertErrorLog
| DeleteExpensesIn (ids : list Z).

Record World : Type := {
  categories : list CategoryRow;
  expenses : list ExpenseRow;
  error_logs : list LogEntry;
  categories_seq : Z;
  expenses_seq : Z;
  (** outcome of the store calls still to come, [true] for a failure;
      past the end of the list every call succeeds *)
  faults : list bool;
  (** the store calls made so far, in order, each with its outcome,
      [true] for a failure *)
  calls : list (Call * bool);
  (** console output so far: level and leading text *)
  console : list (Level * string);
}.

(** *** State updates *)

(** The next scheduled outcome. *)
Definition next_fault (w : World) : bool := hd false (faults w).

(** Every request to the store is recorded in the trace with its
    outcome, and consumes that outcome. *)
Definition record_call (c : Call) (failed : bool) (w : World) : World :=
  {| categories := categories w; expenses := expenses w;
     error_logs := error_logs w;
     categories_seq := categories_seq w; expenses_seq := expenses_seq w;
     faults := tail (faults w); calls := calls w ++ [(c, failed)];
     console := console w |}.

Definition add_category (row : CategoryRow) (w : World) : World :=
  {| categories := categories w ++ [row]; expenses := expenses w;
     error_logs := error_logs w;
     categories_seq := cat_id row; expenses_seq := expenses_seq w;
     faults := faults w; calls := calls w; console := console w |}.

Definition add_expense (row : ExpenseRow) (w : World) : World :=
  {| categories := categories w; expenses := expenses w ++ [row];
     error_logs := error_logs w;
     categories_seq := categories_seq w; expenses_seq := row_id row;
     faults := faults w; calls := calls w; console := console w |}.

Definition remove_expenses (ids : list Z) (w : World) : World :=
  {| categories := categories w;
     expenses := filter (fun r => row_id r ∉ ids) (expenses w);
     error_logs := error_logs w;
     categories_seq := categories_seq w; expenses_seq := expenses_seq w;
     faults := faults w; calls := calls w; console := console w |}.

Definition add_error_log (entry : LogEntry) (w : World) : World :=
  {| categories := categories w; expenses := expenses w;
     error_logs := error_logs w ++ [entry];
     categories_seq := categories_seq w; expenses_seq := expenses_seq w;
     faults := faults w; calls := calls w; console := console w |}.

Definition add_console (l : Level) (text : string) (w : World) : World :=
  {| categories := categories w; expenses := expenses w;
     error_logs := error_logs w;
     categories_seq := categories_seq w; expenses_seq := expenses_seq w;
     faults := faults w; calls := calls w;
     console := console w ++ [(l, text)] |}.

(** The calls made between the state [w] and a later state [w']. *)
Definition since (w w' : World) : list (Call * bool) :=
  drop (length (calls w)) (calls w').

(** *** Stateful computations *)

Definition M (A : Type) : Type := World -> A * World.

Definition ret {A} (a : A) : M A := fun w => (a, w).

Definition bind {A B} (m : M A) (k : A -> M B) : M B :=
  fun w => let '(a, w') := m w in k a w'.

Declare Scope store_scope.
Delimit Scope store_scope with store.
Notation "x <- m ;; k" := (bind m (fun x => k))
  (at level 100, m at next level, right associativity) : store_scope.
Notation "m ;;; k" := (bind m (fun _ => k))
  (at level 100, right associativity) : store_scope.

Definition console_out (l : Level) (text : string) : M unit :=
  fun w => (tt, add_console l text w).

(** JSON drops what is undefined: inside an array it becomes null, and
    a column given no value is stored as NULL. *)
Definition json (v : jsval) : jsval :=
  match v with JUndefined => JNull | _ => v end.

(** *** Store requests *)

(** What a filter [.eq(column, value)] asks for. The value goes into
    the query string as the text [eq.<value>], so that undefined and
    null ask for the rows holding the text "undefined" or "null" and
    never select a row that holds no value; any other value asks for
    the rows that hold it (a boolean or a number is kept as the value
    it is, in the row and in the filter alike). *)
Definition sought (value : jsval) : jsval :=
  match value with
  | JUndefined => JStr "undefined"
  | JNull => JStr "null"
  | _ => value
  end.

(** [.from('categories').select('id').eq('name', name).single()] *)
Definition select_category_id (name : jsval) : M (Result StoreError Z) :=
  fun w =>
    let failed := next_fault w in
    (if failed then Err Unavailable
     else
       match filter (fun r => cat_name r = sought name) (categories w) with
       | [r] => Ok (cat_id r)
       | _ => Err PGRST116
       end,
     record_call (SelectCategoryByName name) failed w).

(** [.from('categories').insert([{name, subCategories}]).select('id').single()];
    the row travels as JSON, so a name that is undefined is not sent
    and the row is stored without a name. *)
Definition insert_category (name : jsval) (subCategories : list jsval)
  : M (Result StoreError Z) :=
  fun w =>
    let failed := next_fault w in
    let w1 := record_call (InsertCategory name subCategories) failed w in
    if failed then (Err Unavailable, w1)
    else
      let newId := (categories_seq w + 1)%Z in
      (Ok newId,
       add_category {| cat_id := newId; cat_name := json name;
                       cat_subCategories := map json subCategories |} w1).

(** [.from('expenses').insert([expenseData]).select()]; [expenseData]
    comes without its id. *)
Definition insert_expense (expenseData : Z -> ExpenseRow)
  : M (Result StoreError ExpenseRow) :=
  fun w =>
    let failed := next_fault w in
    let w1 := record_call InsertExpense failed w in
    if failed then (Err Unavailable, w1)
    else
      let newId := (expenses_seq w + 1)%Z in
      (Ok (expenseData newId), add_expense (expenseData newId) w1).

(** [.from('expenses').delete().in('id', ids)] *)
Definition delete_expenses_in (ids : list Z) : M (Result StoreError unit) :=
  fun w =>
    let failed := next_fault w in
    let w1 := record_call (DeleteExpensesIn ids) failed w in
    if failed then (Err Unavailable, w1)
    else (Ok tt, remove_expenses ids w1).

(** *** utils/errorLogger.ts *)

(** [level.toUpperCase()] *)
Definition level_name (l : Level) : string :=
  match l with
  | info => "INFO" | warn => "WARN" | error => "ERROR" | debug => "DEBUG"
  end.

(** [consoleLog]: the switch sends error, warn and debug to the console
    method of the same name and everything else to [console.log]. Of the
    line printed, the level and the source are kept. *)
Definition consoleLog (l : Level) (source : string) (w : World) : World :=
  add_console l ("[" ++ level_name l ++ "] [" ++ source ++ "]")%string w.

(** [logger.log]: one insert into error_logs, and the console when the
    insert fails. It never throws; [logged] is the state it leaves. *)
Definition logged (l : Level) (message : list jsval) (source : string)
    (details : Details) (w : World) : World :=
  let failed := next_fault w in
  let w1 := record_call InsertErrorLog failed w in
  if failed then
    consoleLog l source
      (add_console error "Failed to log to Supabase, using console fallback:" w1)
  else
    add_error_log {| log_level := l; log_message := message;
                     log_source := source; log_details := details |} w1.

Definition logger_log (l : Level) (message : list jsval) (source : string)
    (details : Details) : M unit :=
  fun w => (tt, logged l message source details w).

Definition logger_error := logger_log error.
Definition logger_info := logger_log info.

End Store.

(** ** Expense routes (routes/expenses.ts) *)

Module Expenses.
Import ExpenseTypes Store.
Local Open Scope store_scope.

(** What [insertExpense] throws: the error of the category insert or
    the error of the expense insert. *)
Inductive Thrown : Type :=
| createError (e : StoreError)
| insertError (e : StoreError).

Inductive Body : Type :=
| ErrorBody (error : string)
| ExpenseBody (e : ExpenseRecord)
| ImportBody (message : string) (successCount totalCount : nat)
             (errors : option (list (list jsval)))
| DeleteBody (message : string) (deletedCount : nat).

Record Response : Type := {
  status : Z;
  body : Body;
}.

Definition src : string := "expenses.insertExpense".

(** The first half of [insertExpense]: the category id of
    [expense.category], looked up by name and created when the lookup
    reports an error. *)
Definition resolveCategory (expense : ExpenseRecord) : M (Result Thrown Z) :=
  found <- select_category_id (category expense) ;;
  match found with
  | Err categoryError =>
      logger_error [JStr "Error fetching category for "; category expense] src
                   (StoreErrorDetails categoryError) ;;;
      let subCatgrs := [subCategory expense] in
      created <- insert_category (category expense)
                                 (or_array subCatgrs [JStr "General"]) ;;
      match created with
      | Err e =>
          logger_error [JStr "Error creating category "; category expense] src
                       (StoreErrorDetails e) ;;;
          ret (Err (createError e))
      | Ok newId =>
          logger_info [JStr "Created new category: "; category expense;
                       JStr " with ID: "; num newId] src NoDetails ;;;
          ret (Ok newId)
      end
  | Ok categoryId =>
      logger_info [JStr "Found category "; category expense;
                   JStr " with ID: "; num categoryId] src NoDetails ;;;
      ret (Ok categoryId)
  end.

Definition expenseData (expense : ExpenseRecord) (categoryId : Z) (newId : Z)
  : ExpenseRow :=
  {| row_id := newId;
     row_description := json (description expense);
     row_amount := json (amount expense);
     row_type := json (type expense);
     row_date := json (date expense);
     row_paidBy := json (paidBy expense);
     row_categoryId := categoryId;
     row_subCategory := or (subCategory expense) JNull;
     row_source := or (source expense) JNull;
     row_notes := or (notes expense) JNull |}.

Definition insertExpense (expense : ExpenseRecord) : M (Result Thrown ExpenseRow) :=
  console_out info "Attempting to insert expense:" ;;;
  resolved <- resolveCategory expense ;;
  match resolved with
  | Err thrown =>
      console_out error "Error inserting expense:" ;;;
      ret (Err thrown)
  | Ok categoryId =>
      logger_info [JStr "Inserting expense data"] src
                  (AmountAndCategory (amount expense) categoryId) ;;;
      inserted <- insert_expense (expenseData expense categoryId) ;;
      match inserted with
      | Err e =>
          logger_error [JStr "Supabase insert error for expense"] src
                       (DescriptionAndError (description expense) e) ;;;
          console_out error "Error inserting expense:" ;;;
          ret (Err (insertError e))
      | Ok row =>
          console_out info "Successfully inserted expense:" ;;;
          ret (Ok row)
      end
  end.

(** POST /api/expenses. The [id] of the response holds the operand of
    [toString()]. *)
Definition addExpense (newExpense : ExpenseRecord) : M Response :=
  if negb (truthy (description newExpense))
     || negb (truthy (amount newExpense))
     || negb (truthy (category newExpense))
  then ret {| status := 400; body := ErrorBody "Missing required fields" |}
  else
    inserted <- insertExpense newExpense ;;
    match inserted with
    | Ok insertedExpense =>
        ret {| status := 201;
               body := ExpenseBody
                 {| id := num (row_id insertedExpense);
                    date := row_date insertedExpense;
                    type := row_type insertedExpense;
                    description := row_description insertedExpense;
                    amount := row_amount insertedExpense;
                    paidBy := row_paidBy insertedExpense;
                    category := category newExpense;
                    subCategory := row_subCategory insertedExpense;
                    source := row_source insertedExpense;
                    notes := row_notes insertedExpense |} |}
    | Err _ =>
        console_out error "Error adding expense:" ;;;
        ret {| status := 500; body := ErrorBody "Failed to add expense" |}
    end.

(** [insertExpense(null)]: the call prints its first line, then reading
    [expense.category] raises a TypeError before any request is made,
    and the catch clause prints and throws it again. *)
Definition insertNull : M unit :=
  console_out info "Attempting to insert expense:" ;;;
  console_out error "Error inserting expense:".

(** The [for (const expense of importedExpenses)] loop with its two
    accumulators. An element of the array is [None] when it is null:
    the catch clause of the loop then raises a TypeError of its own on
    [expense.description], which leaves the loop; the result is [None]
    in that case. *)
Fixpoint importLoop (importedExpenses : list (option ExpenseRecord))
    (successCount : nat) (errors : list (list jsval))
  : M (option (nat * list (list jsval))) :=
  match importedExpenses with
  | [] => ret (Some (successCount, errors))
  | None :: _ => insertNull ;;; ret None
  | Some expense :: rest =>
      r <- insertExpense expense ;;
      match r with
      | Ok _ => importLoop rest (S successCount) errors
      | Err _ =>
          console_out error "Error importing expense:" ;;;
          importLoop rest successCount
            (errors ++ [[JStr "Failed to import: "; description expense]])
      end
  end.

(** POST /api/expenses/import; the body is [None] when it is not an
    array. An error that leaves the loop is caught by the handler, which
    answers 500. *)
Definition importExpenses (reqBody : option (list (option ExpenseRecord)))
  : M Response :=
  match reqBody with
  | None => ret {| status := 400; body := ErrorBody "Expected array of expenses" |}
  | Some importedExpenses =>
      counted <- importLoop importedExpenses 0 [] ;;
      match counted with
      | None =>
          console_out error "Error importing expenses:" ;;;
          ret {| status := 500; body := ErrorBody "Failed to import expenses" |}
      | Some (successCount, errors) =>
          ret {| status := 200;
                 body :=
                   if (0 <? length errors)%nat then
                     ImportBody ("Import completed with "
                                 +:+ pretty (length errors) +:+ " errors")
                                successCount (length importedExpenses)
                                (Some errors)
                   else
                     ImportBody "Import completed"
                                successCount (length importedExpenses) None |}
      end
  end.

(** [ids.map(id => parseInt(id)).filter(id => !isNaN(id))] *)
Definition numericIds (ids : list string) : list Z :=
  omap parseInt ids.

(** POST /api/expenses/bulk-delete; [ids] is [None] when the body holds
    no array under that key. *)
Definition bulkDeleteExpenses (ids : option (list string)) : M Response :=
  match ids with
  | None => ret {| status := 400; body := ErrorBody "Expected array of IDs" |}
  | Some ids =>
      let numericIds := numericIds ids in
      if (length numericIds =? 0)%nat then
        ret {| status := 400; body := ErrorBody "No valid IDs provided" |}
      else
        deleted <- delete_expenses_in numericIds ;;
        match deleted with
        | Err _ =>
            console_out error "Supabase bulk delete error:" ;;;
            ret {| status := 500; body := ErrorBody "Failed to delete expenses" |}
        | Ok _ =>
            ret {| status := 200;
                   body := DeleteBody "Expenses deleted successfully"
                                      (length numericIds) |}
        end
  end.

End Expenses.

(** ** Shared types (shared/animal-types.ts) *)

Module AnimalTypes.

(** The fields of an [AnimalRecord] the dashboard reads. The optional
    numbers are [None] when the animal has none. *)
Record AnimalRecord : Type := {
  id : string;
  type : string;
  gender : string;
  status : string;
  currentWeight : option Q;
  purchasePrice : option Q;
  salePrice : option Q;
}.

Record WeightRecord : Type := {
  animalId : string;
  weight : Q;
  date : string;
}.

Record AnimalSummary : Type := {
  totalAnimals : nat;
  totalGoats : nat;
  totalSheep : nat;
  totalMales : nat;
  totalFemales : nat;
  activeAnimals : nat;
  soldAnimals : nat;
  readyToSell : nat;
  deadAnimals : nat;
  averageWeight : Q;
  totalInvestment : Q;
  totalRevenue : Q;
  profitLoss : Q;
}.

End AnimalTypes.

(** ** Dashboard summary (routes/animals.ts, getAnimalSummary) *)

Module Animals.
Import AnimalTypes.

Global Instance Qlt_decision (x y : Q) : Decision (x < y)%Q.
Proof.
  destruct (Qlt_le_dec x y) as [H | H]; [left; exact H | right].
  apply Qle_not_lt. exact H.
Defined.

(** [x || 0] for an optional number. *)
Definition orZero (x : option Q) : Q :=
  match x with
  | Some q => if Qeq_bool q 0 then 0%Q else q
  | None => 0%Q
  end.

(** [Array.prototype.sort(compareFn)] is stable, and for a consistent
    comparator its result is the one of any stable sort: an element
    goes before the first element it does not compare greater than. *)
Section Sort.
Context {A : Type} (compareFn : A -> A -> Z).

Fixpoint insert (x : A) (l : list A) : list A :=
  match l with
  | [] => [x]
  | y :: l' =>
      if (compareFn x y <=? 0)%Z then x :: y :: l' else y :: insert x l'
  end.

Fixpoint sort (l : list A) : list A :=
  match l with
  | [] => []
  | x :: l' => insert x (sort l')
  end.
End Sort.

Section Summary.
(** [new Date(s).getTime()], for the dates the weight records carry. *)
Variable getTime : string -> Z.

Definition byDateDescending (a b : WeightRecord) : Z :=
  (getTime (date b) - getTime (date a))%Z.

(** The callback of [animals.map((animal) => ...)]. *)
Definition latestWeight (weightRecords : list WeightRecord)
    (animal : AnimalRecord) : Q :=
  let animalWeightRecords :=
    sort byDateDescending
         (filter (fun w => animalId w = id animal) weightRecords) in
  match animalWeightRecords with
  | first :: _ => weight first
  | [] => orZero (currentWeight animal)
  end.

Definition animalWeights (animals : list AnimalRecord)
    (weightRecords : list WeightRecord) : list Q :=
  filter (fun weight => (0 < weight)%Q)
         (map (latestWeight weightRecords) animals).

(** The summary computed from the two collections the handler reads. *)
Definition getAnimalSummary (animals : list AnimalRecord)
    (weightRecords : list WeightRecord) : AnimalSummary :=
  let animalWeights := animalWeights animals weightRecords in
  let totalInvestment :=
    fold_left (fun sum animal => (sum + orZero (purchasePrice animal))%Q)
              animals 0%Q in
  let totalRevenue :=
    fold_left (fun sum animal => (sum + orZero (salePrice animal))%Q)
              (filter (fun a => status a = "sold") animals) 0%Q in
  {| totalAnimals := length animals;
     totalGoats := length (filter (fun a => type a = "goat") animals);
     totalSheep := length (filter (fun a => type a = "sheep") animals);
     totalMales := length (filter (fun a => gender a = "male") animals);
     totalFemales := length (filter (fun a => gender a = "female") animals);
     activeAnimals := length (filter (fun a => status a = "active") animals);
     soldAnimals := length (filter (fun a => status a = "sold") animals);
     readyToSell := length (filter (fun a => status a = "ready_to_sell") animals);
     deadAnimals := length (filter (fun a => status a = "dead") animals);
     averageWeight :=
       if (0 <? length animalWeights)%nat then
         (fold_left (fun sum weight => (sum + weight)%Q) animalWeights 0
          / inject_Z (Z.of_nat (length animalWeights)))%Q
       else 0%Q;
     totalInvestment := totalInvestment;
     totalRevenue := totalRevenue;
     profitLoss := (totalRevenue - totalInvestment)%Q |}.
End Summary.

(** Days from the epoch to the day [d] of the month [m] of the year
    [y]; a day past the end of the month counts on into the next. *)
Definition daysFromCivil (y m d : Z) : Z :=
  let y' := if (m <=? 2)%Z then (y - 1)%Z else y in
  let era := (y' / 400)%Z in
  let yoe := (y' - era * 400)%Z in
  let mp := ((m + 9) mod 12)%Z in
  let doy := ((153 * mp + 2) / 5 + d - 1)%Z in
  let doe := (yoe * 365 + yoe / 4 - yoe / 100 + doy)%Z in
  (era * 146097 + doe - 719468)%Z.

(** [new Date(s).getTime()] for a string of the form YYYY-MM-DD, in
    milliseconds since the epoch (midnight UTC). [None] is NaN: it is
    what a string of another form gives here, and a string whose month
    is not 1 to 12 or whose day is not 1 to 31. *)
Definition isoTime (s : string) : option Z :=
  if Reader.isIsoDate s then
    let cs := list_ascii_of_string s in
    let y := radixValue 10 (take 4 cs) in
    let m := radixValue 10 (take 2 (drop 5 cs)) in
    let d := radixValue 10 (take 2 (drop 8 cs)) in
    if ((1 <=? m) && (m <=? 12) && (1 <=? d) && (d <=? 31))%Z then
      Some (daysFromCivil y m d * 86400000)%Z
    else None
  else None.

End Animals.

(** ** Updating and deleting one expense (routes/expenses.ts) *)

Module ExpenseUpdates.
Import ExpenseTypes Store Expenses.
Local Open Scope store_scope.

(** The requests below are identified by their effect: they consume
    their scheduled outcome and leave no entry in [calls], which keeps
    the requests of the ingestion and bulk delete paths. *)
Definition answered (w : World) : World :=
  {| categories := categories w; expenses := expenses w;
     error_logs := error_logs w;
     categories_seq := categories_seq w; expenses_seq := expenses_seq w;
     faults := tail (faults w); calls := calls w; console := console w |}.

Definition set_expenses (rows : list ExpenseRow) (w : World) : World :=
  {| categories := categories w; expenses := rows;
     error_logs := error_logs w;
     categories_seq := categories_seq w; expenses_seq := expenses_seq w;
     faults := faults w; calls := calls w; console := console w |}.

(** The object [updateData]; [categoryId] is set only when the handler
    assigns it. *)
Record UpdateData : Type := {
  u_description : jsval;
  u_amount : jsval;
  u_type : jsval;
  u_date : jsval;
  u_paidBy : jsval;
  u_subCategory : jsval;
  u_source : jsval;
  u_notes : jsval;
  u_categoryId : option Z;
}.

(** JSON drops a key whose value is undefined, and a column the request
    does not name keeps its value. *)
Definition patched (new old : jsval) : jsval :=
  match new with JUndefined => old | _ => new end.

Definition apply_update (d : UpdateData) (r : ExpenseRow) : ExpenseRow :=
  {| row_id := row_id r;
     row_description := patched (u_description d) (row_description r);
     row_amount := patched (u_amount d) (row_amount r);
     row_type := patched (u_type d) (row_type r);
     row_date := patched (u_date d) (row_date r);
     row_paidBy := patched (u_paidBy d) (row_paidBy r);
     row_categoryId := default (row_categoryId r) (u_categoryId d);
     row_subCategory := patched (u_subCategory d) (row_subCategory r);
     row_source := patched (u_source d) (row_source r);
     row_notes := patched (u_notes d) (row_notes r) |}.

(** [.from('expenses').update(updateData).eq('id', id).select()]; [id] is
    [None] for NaN, which the store refuses as a value of the integer
    column. The answer lists the rows updated. *)
Definition update_expense (id : option Z) (d : UpdateData)
  : M (Result StoreError (list ExpenseRow)) :=
  fun w =>
    let failed := next_fault w in
    let w1 := answered w in
    match id with
    | None => (Err Unavailable, w1)
    | Some n =>
        if failed then (Err Unavailable, w1)
        else
          let rows :=
            map (fun r => if decide (row_id r = n) then apply_update d r else r)
                (expenses w) in
          (Ok (filter (fun r => row_id r = n) rows), set_expenses rows w1)
    end.

(** [.from('expenses').delete().eq('id', id)] *)
Definition delete_expense_eq (id : option Z) : M (Result StoreError unit) :=
  fun w =>
    let failed := next_fault w in
    let w1 := answered w in
    match id with
    | None => (Err Unavailable, w1)
    | Some n =>
        if failed then (Err Unavailable, w1)
        else (Ok tt, remove_expenses [n] w1)
    end.

(** The second half of [updateExpense], from [updateData] on;
    [categoryId] is [None] when the variable is left undefined. The test
    [if (categoryId)] is on a number, and 0 is falsy. *)
Definition updateWith (id : string) (updatedExpense : ExpenseRecord)
    (categoryId : option Z) : M Response :=
  let updateData :=
    {| u_description := description updatedExpense;
       u_amount := amount updatedExpense;
       u_type := type updatedExpense;
       u_date := date updatedExpense;
       u_paidBy := paidBy updatedExpense;
       u_subCategory := subCategory updatedExpense;
       u_source := source updatedExpense;
       u_notes := notes updatedExpense;
       u_categoryId :=
         match categoryId with
         | Some c => if (c =? 0)%Z then None else Some c
         | None => None
         end |} in
  updated <- update_expense (parseInt id) updateData ;;
  match updated with
  | Err PGRST116 =>
      ret {| status := 404; body := ErrorBody "Expense not found" |}
  | Err _ =>
      console_out error "Supabase update error:" ;;;
      ret {| status := 500; body := ErrorBody "Failed to update expense" |}
  | Ok [] => ret {| status := 404; body := ErrorBody "Expense not found" |}
  | Ok (row :: _) =>
      ret {| status := 200;
             body := ExpenseBody
               {| id := num (row_id row);
                  date := row_date row;
                  type := row_type row;
                  description := row_description row;
                  amount := row_amount row;
                  paidBy := row_paidBy row;
                  category := or (category updatedExpense) JUndefined;
                  subCategory := row_subCategory row;
                  source := row_source row;
                  notes := row_notes row |} |}
  end.

(** PUT /api/expenses/:id. The category is resolved here without the
    logger, and the sub-category of a category it creates defaults to
    "General". A row of expenses has no column [category], so the
    response falls back on undefined for it. *)
Definition updateExpense (id : string) (updatedExpense : ExpenseRecord)
  : M Response :=
  if truthy (category updatedExpense) then
    found <- select_category_id (category updatedExpense) ;;
    match found with
    | Err _ =>
        created <- insert_category (category updatedExpense)
                     [or (subCategory updatedExpense) (JStr "General")] ;;
        match created with
        | Err _ =>
            console_out error "Error creating category" ;;;
            ret {| status := 500; body := ErrorBody "Failed to create category" |}
        | Ok newId => updateWith id updatedExpense (Some newId)
        end
    | Ok categoryId => updateWith id updatedExpense (Some categoryId)
    end
  else updateWith id updatedExpense None.

(** The answer of a handler that sends a message. *)
Inductive Answer : Type :=
| Message (status : Z) (message : string)
| Failure (status : Z) (error : string).

(** DELETE /api/expenses/:id *)
Definition deleteExpense (id : string) : M Answer :=
  deleted <- delete_expense_eq (parseInt id) ;;
  match deleted with
  | Err PGRST116 => ret (Failure 404 "Expense not found")
  | Err _ =>
      console_out error "Supabase delete error:" ;;;
      ret (Failure 500 "Failed to delete expense")
  | Ok _ => ret (Message 200 "Expense deleted successfully")
  end.

End ExpenseUpdates.

(** ** Category management (routes/expenses.ts) *)

Module Categories.
Import Store ExpenseUpdates.
Local Open Scope store_scope.

(** A [CategoryConfig] of shared/expense-types.ts, without its
    [createdAt]; [id] holds the operand of [toString()], and
    [subCategories] is [None] when the object has none. *)
Record CategoryConfig : Type := {
  id : jsval;
  name : jsval;
  subCategories : option (list jsval);
}.

Definition set_categories (rows : list CategoryRow) (seq : Z) (w : World) : World :=
  {| categories := rows; expenses := expenses w;
     error_logs := error_logs w;
     categories_seq := seq; expenses_seq := expenses_seq w;
     faults := faults w; calls := calls w; console := console w |}.

Definition byIdAscending (a b : CategoryRow) : Z := (cat_id a - cat_id b)%Z.

(** [.from('categories').select('*').order('id', { ascending: true })] *)
Definition select_categories : M (Result StoreError (list CategoryRow)) :=
  fun w =>
    let failed := next_fault w in
    (if failed then Err Unavailable
     else Ok (Animals.sort byIdAscending (categories w)),
     answered w).

(** [.from('categories').delete().gte('id', bound)] *)
Definition delete_categories_gte (bound : Z) : M (Result StoreError unit) :=
  fun w =>
    let failed := next_fault w in
    let w1 := answered w in
    if failed then (Err Unavailable, w1)
    else
      (Ok tt,
       set_categories (filter (fun r => (cat_id r < bound)%Z) (categories w))
                      (categories_seq w) w1).

(** The rows a bulk insert adds: the store numbers them from its
    sequence, in the order given; a name that is undefined is a column
    given no value. *)
Fixpoint numbered (seq : Z) (rows : list (jsval * list jsval)) : list CategoryRow :=
  match rows with
  | [] => []
  | (n, subs) :: rows' =>
      {| cat_id := seq + 1; cat_name := json n;
         cat_subCategories := map json subs |}
      :: numbered (seq + 1) rows'
  end.

(** [.from('categories').insert(categoriesToInsert)] *)
Definition insert_categories (rows : list (jsval * list jsval))
  : M (Result StoreError unit) :=
  fun w =>
    let failed := next_fault w in
    let w1 := answered w in
    if failed then (Err Unavailable, w1)
    else
      (Ok tt,
       set_categories (categories w ++ numbered (categories_seq w) rows)
                      (categories_seq w + Z.of_nat (length rows)) w1).

(** [readCategories]: the categories in the order of their ids, and
    none when the select fails. *)
Definition readCategories : M (list CategoryConfig) :=
  selected <- select_categories ;;
  match selected with
  | Err _ => console_out error "Supabase error:" ;;; ret []
  | Ok rows =>
      ret (map (fun cat => {| id := num (cat_id cat); name := cat_name cat;
                              subCategories := Some (cat_subCategories cat) |})
               rows)
  end.

(** What [writeCategories] throws: the error of the insert, or the
    TypeError that reading a property of null raises. *)
Inductive WriteError : Type :=
| insertFailed (e : StoreError)
| nullCategory.

(** [data.categories.map(cat => ({ name: cat.name, subCategories:
    cat.subCategories || [] }))]; an element of the array is [None]
    when it is null, and the callback then raises a TypeError. *)
Fixpoint rowsToInsert (data : list (option CategoryConfig))
  : option (list (jsval * list jsval)) :=
  match data with
  | [] => Some []
  | None :: _ => None
  | Some cat :: data' =>
      match rowsToInsert data' with
      | Some rows => Some ((name cat, default [] (subCategories cat)) :: rows)
      | None => None
      end
  end.

(** [writeCategories]: the answer of the delete is not looked at, and
    the rows to insert are built after the delete was sent. *)
Definition writeCategories (data : list (option CategoryConfig))
  : M (Result WriteError unit) :=
  delete_categories_gte 0 ;;;
  if (0 <? length data)%nat then
    match rowsToInsert data with
    | None =>
        console_out error "Error writing categories:" ;;;
        ret (Err nullCategory)
    | Some rows =>
        inserted <- insert_categories rows ;;
        match inserted with
        | Err e =>
            console_out error "Supabase insert error:" ;;;
            console_out error "Error writing categories:" ;;;
            ret (Err (insertFailed e))
        | Ok _ => ret (Ok tt)
        end
    end
  else ret (Ok tt).

(** GET /api/expenses/categories; the answer is the [categories] of the
    body, whose [lastUpdated] is the time of the call. *)
Definition getCategories : M (list CategoryConfig) := readCategories.

(** POST /api/expenses/categories; [categories] is [None] when the body
    holds no array under that key. *)
Definition saveCategories (categories : option (list (option CategoryConfig)))
  : M Answer :=
  match categories with
  | None => ret (Failure 400 "Invalid categories data")
  | Some data =>
      written <- writeCategories data ;;
      match written with
      | Ok _ => ret (Message 200 "Categories saved successfully")
      | Err _ =>
          console_out error "Error saving categories:" ;;;
          ret (Failure 500 "Failed to save categories")
      end
  end.

End Categories.

(** * Properties *)

(** ** Truthiness *)

Section Truthiness.
Import JS.

Lemma truthy_or_l (a b : jsval) : truthy a = true -> or a b = a.
Proof. intros H. unfold or. now rewrite H. Qed.

Lemma truthy_or_r (a b : jsval) : truthy a = false -> or a b = b.
Proof. intros H. unfold or. now rewrite H. Qed.

(** A missing value, an empty string and a zero are falsy. *)
Lemma missing_empty_zero_falsy (v : jsval) :
  v = JUndefined \/ v = JNull \/ v = JStr "" \/ v = num 0 ->
  truthy v = false.
Proof. intros [-> | [-> | [-> | ->]]]; reflexivity. Qed.

(** The falsy values are exactly undefined, null, false, NaN, the
    zeros and the empty string. *)
Lemma falsy_inv (v : jsval) :
  truthy v = false ->
  v = JUndefined \/ v = JNull \/ v = JBool false \/ v = JNum NaN
  \/ (exists q, v = JNum (Fin q) /\ (q == 0)%Q) \/ v = JStr "".
Proof.
  destruct v as [ | | [] | [ | | q] | s]; cbn; intros H; try discriminate; auto.
  - right; right; right; right; left. exists q. split; [reflexivity |].
    apply Qeq_bool_iff. now destruct (Qeq_bool q 0).
  - do 5 right. destruct s; [reflexivity | discriminate].
Qed.
End Truthiness.

(** ** Date normalization and field aliasing in the reader *)

Module ReaderFacts.
Import ExpenseTypes Reader.

(** A date already in the form YYYY-MM-DD is kept as it is. *)
Lemma formatDate_iso (today s : string) :
  isIsoDate s = true -> formatDate today (JStr s) = (s, []).
Proof.
  intros H. unfold formatDate.
  destruct s as [| c s]; [discriminate H |].
  cbn [truthy String.eqb negb]. now rewrite H.
Qed.

(** A string of three parts separated by slashes is rearranged into
    year, padded month, padded day. *)
Lemma formatDate_slashes (today s month day year : string) :
  s <> "" -> isIsoDate s = false -> split "/" s = [month; day; year] ->
  formatDate today (JStr s)
  = ((year ++ "-" ++ padStart 2 "0" month ++ "-" ++ padStart 2 "0" day)%string, []).
Proof.
  intros Hne Hiso Hsplit. unfold formatDate.
  destruct s as [| c s]; [congruence |].
  cbn [truthy String.eqb negb]. now rewrite Hiso, Hsplit.
Qed.

Example formatDate_1_5_2024 (today : string) :
  formatDate today (JStr "1/5/2024") = ("2024-01-05", []).
Proof. reflexivity. Qed.

Example formatDate_2024_01_05 (today : string) :
  formatDate today (JStr "2024-01-05") = ("2024-01-05", []).
Proof. reflexivity. Qed.

(** No string makes the reader write to the console: the warning sits
    in the catch clause, and no operation on a string raises. *)
Lemma formatDate_string_silent (today s : string) :
  snd (formatDate today (JStr s)) = [].
Proof.
  unfold formatDate. destruct (truthy (JStr s)); [| reflexivity].
  destruct (isIsoDate s); [reflexivity |].
  destruct (split "/" s) as [| ? [| ? [| ? [| ? ?]]]]; reflexivity.
Qed.

(** The record read from a row whose only column is a date. *)
Definition rowWithDate (d : string) : gmap string jsval :=
  {[ "date" := JStr d ]}.

(** C2. The reader replaces the date "not-a-date" by the current date
    and the record is produced, but nothing is written to the console:
    no warning is logged for it, nor for any other string. *)
Theorem readExpenses_not_a_date_no_warning (today : string) :
  (exists r, readExpenses today (Some [rowWithDate "not-a-date"]) = ([r], [])
             /\ date r = JStr today)
  /\ forall s, snd (formatDate today (JStr s)) = [].
Proof.
  split; [| intros s; apply formatDate_string_silent].
  eexists. split; [vm_compute; reflexivity | reflexivity].
Qed.

(** *** Aliased fields *)

Inductive Field : Type :=
| FDate | FType | FDescription | FAmount | FPaidBy
| FCategory | FSubCategory | FSource | FNotes.

(** The capitalized label of a field, the first key the reader tries. *)
Definition label (f : Field) : string :=
  match f with
  | FDate => "Date" | FType => "Type" | FDescription => "Description"
  | FAmount => "Amount" | FPaidBy => "Paid By" | FCategory => "Category"
  | FSubCategory => "Sub-Category" | FSource => "Source" | FNotes => "Notes"
  end.

(** Its camelCase key, the second key the reader tries. *)
Definition camelCase (f : Field) : string :=
  match f with
  | FDate => "date" | FType => "type" | FDescription => "description"
  | FAmount => "amount" | FPaidBy => "paidBy" | FCategory => "category"
  | FSubCategory => "subCategory" | FSource => "source" | FNotes => "notes"
  end.

Definition get (f : Field) (r : ExpenseRecord) : jsval :=
  match f with
  | FDate => date r | FType => type r | FDescription => description r
  | FAmount => amount r | FPaidBy => paidBy r | FCategory => category r
  | FSubCategory => subCategory r | FSource => source r | FNotes => notes r
  end.

(** What the reader makes of the value it selected for a field: dates
    are normalized, amounts parsed, the other fields copied. *)
Definition shaped (today : string) (f : Field) (v : jsval) : jsval :=
  match f with
  | FDate => JStr (fst (formatDate today v))
  | FAmount => JNum (parseFloat v)
  | _ => v
  end.

Definition bothSpellings : gmap string jsval :=
  {[ "Paid By" := JStr "Alice"; "paidBy" := JStr "Bob" ]}.

(** C3, as stated, fails: a row that carries both "Paid By" and paidBy
    is read with the value under "Paid By", not the one under paidBy. *)
Lemma camelCase_not_preferred :
  ~ (paidBy (fst (transform "2024-01-05" 0 bothSpellings))
     = prop bothSpellings "paidBy").
Proof. vm_compute. discriminate. Qed.

(** C3, amended. For every aliased field, the reader takes the value
    under the capitalized label whenever that value is truthy, whatever
    the camelCase key holds; it takes the value under the camelCase key
    only when the value under the label is falsy. *)
Theorem label_preferred (today : string) (index : nat)
    (item : gmap string jsval) (f : Field) :
  truthy (prop item (label f)) = true ->
  get f (fst (transform today index item))
  = shaped today f (prop item (label f)).
Proof.
  intros H. unfold transform.
  destruct (formatDate today (or (prop item "Date") (prop item "date")))
    as [formattedDate out] eqn:Hd.
  destruct f; cbn [get fst label shaped date type description amount paidBy category
                   subCategory source notes] in *;
    repeat (rewrite (truthy_or_l (prop item _)) by exact H);
    try reflexivity.
  rewrite (truthy_or_l (prop item _)) in Hd by exact H. now rewrite Hd.
Qed.

Lemma label_preferred_witness :
  truthy (prop bothSpellings (label FPaidBy)) = true
  /\ get FPaidBy (fst (transform "2024-01-05" 0 bothSpellings)) = JStr "Alice".
Proof.
  split; [reflexivity |].
  exact (label_preferred "2024-01-05" 0 bothSpellings FPaidBy eq_refl).
Defined.

(** The camelCase key is read when the label holds nothing truthy. *)
Lemma camelCase_fallback (today : string) (index : nat)
    (item : gmap string jsval) (f : Field) :
  truthy (prop item (label f)) = false ->
  truthy (prop item (camelCase f)) = true ->
  get f (fst (transform today index item))
  = shaped today f (prop item (camelCase f)).
Proof.
  intros Hl Hc. unfold transform.
  destruct (formatDate today (or (prop item "Date") (prop item "date")))
    as [formattedDate out] eqn:Hd.
  destruct f; cbn [get fst label camelCase shaped date type description amount paidBy
                   category subCategory source notes] in *;
    repeat (rewrite (truthy_or_r (prop item _)) by exact Hl);
    repeat (rewrite (truthy_or_l (prop item _)) by exact Hc);
    try reflexivity.
  rewrite (truthy_or_r (prop item _)) in Hd by exact Hl. now rewrite Hd.
Qed.

End ReaderFacts.

(** ** The store: frame lemmas *)

Module StoreFacts.
Import Store.

(** The outcome scheduled for the [k]-th store call from now. *)
Definition fault (k : nat) (w : World) : bool := hd false (drop k (faults w)).

(** No failure is scheduled: the store answers every call. *)
Definition available (w : World) : Prop := Forall (fun f => f = false) (faults w).

(** A value that is given: neither undefined nor null. It is stored
    as it is, and it is what a filter on it asks for. *)
Definition given (v : jsval) : Prop := v <> JUndefined /\ v <> JNull.

Lemma sought_given (v : jsval) : given v -> sought v = v.
Proof. intros [H1 H2]. now destruct v. Qed.

Lemma json_given (v : jsval) : given v -> json v = v.
Proof. intros [H1 H2]. now destruct v. Qed.

Lemma truthy_given (v : jsval) : truthy v = true -> given v.
Proof. intros H. split; intros ->; discriminate H. Qed.

Lemma since_app (w w' : World) (tr : list (Call * bool)) :
  calls w' = calls w ++ tr -> since w w' = tr.
Proof. intros H. unfold since. rewrite H. apply drop_app_length. Qed.

Lemma tail_as_drop {A} (l : list A) : tail l = drop 1 l.
Proof. reflexivity. Qed.

Lemma available_fault (w : World) (k : nat) : available w -> fault k w = false.
Proof.
  unfold available, fault. intros H.
  assert (Hd : Forall (fun f => f = false) (drop k (faults w)))
    by (apply Forall_drop; exact H).
  destruct (drop k (faults w)) as [| f l]; [reflexivity |].
  now inversion Hd.
Qed.

(** What a log call leaves untouched, and what it adds. *)
Section Logged.
Variables (l : Level) (m : list jsval) (s : string) (d : Details) (w : World).
Let w' := logged l m s d w.

Ltac both := subst w'; unfold logged, next_fault; cbn;
             now destruct (hd false (faults w)).

Lemma logged_categories : categories w' = categories w.
Proof. both. Qed.
Lemma logged_expenses : expenses w' = expenses w.
Proof. both. Qed.
Lemma logged_categories_seq : categories_seq w' = categories_seq w.
Proof. both. Qed.
Lemma logged_expenses_seq : expenses_seq w' = expenses_seq w.
Proof. both. Qed.
Lemma logged_faults : faults w' = tail (faults w).
Proof. both. Qed.
Lemma logged_calls :
  calls w' = calls w ++ [(InsertErrorLog, hd false (faults w))].
Proof. both. Qed.
End Logged.

Create Rewrite HintDb world.
Hint Rewrite logged_categories logged_expenses logged_categories_seq
  logged_expenses_seq logged_faults logged_calls : world.

(** Projections of an updated state. *)
Ltac world_simpl :=
  repeat first
    [ progress cbn [categories expenses error_logs categories_seq
                    expenses_seq faults calls console record_call
                    add_category add_expense remove_expenses
                    add_error_log add_console fst snd]
    | progress autorewrite with world ].

Ltac world_simpl_in H :=
  repeat first
    [ progress cbn [categories expenses error_logs categories_seq
                    expenses_seq faults calls console record_call
                    add_category add_expense remove_expenses
                    add_error_log add_console fst snd] in H
    | progress autorewrite with world in H ].

(** Unfolds the store requests and the logger down to state updates. *)
Ltac run_store :=
  unfold logger_error, logger_info, logger_log, console_out,
    select_category_id, insert_category, insert_expense,
    delete_expenses_in, bind, ret, next_fault.

(** Splits on the next decision the code takes: the outcome of a store
    call, or the shape of a query result. *)
Ltac case_decision :=
  match goal with
  | |- context [if ?b then _ else _] => destruct b eqn:?
  | |- context [match @filter ?A ?B ?C ?P ?D ?l with [] => _ | _ :: _ => _ end] =>
      destruct (@filter A B C P D l) as [| ? [| ? ?]] eqn:?
  end.

End StoreFacts.

(** ** Expense ingestion *)

Module ExpenseFacts.
Import ExpenseTypes Store Expenses StoreFacts.

(** *** Sample data *)

Definition emptyWorld : World :=
  {| categories := []; expenses := []; error_logs := [];
     categories_seq := 0; expenses_seq := 0;
     faults := []; calls := []; console := [] |}.

(** A complete expense that names no sub-category. *)
Definition hay : ExpenseRecord :=
  {| id := JUndefined; date := JStr "2024-01-05"; type := JStr "Expense";
     description := JStr "Hay"; amount := num 12; paidBy := JStr "Asha";
     category := JStr "Feed"; subCategory := JUndefined;
     source := JUndefined; notes := JUndefined |}.

Definition withoutAmount : ExpenseRecord :=
  {| id := JUndefined; date := JStr "2024-01-05"; type := JStr "Expense";
     description := JStr "Hay"; amount := JUndefined; paidBy := JStr "Asha";
     category := JStr "Feed"; subCategory := JUndefined;
     source := JUndefined; notes := JUndefined |}.

Definition withoutDescription : ExpenseRecord :=
  {| id := JUndefined; date := JStr "2024-01-06"; type := JStr "Expense";
     description := JUndefined; amount := num 7; paidBy := JStr "Asha";
     category := JStr "Feed"; subCategory := JStr "Straw";
     source := JUndefined; notes := JUndefined |}.

(** *** Validation *)

(** C1. An expense whose description, amount or category is missing,
    empty or zero is answered with status 400, and the state of the
    store, its trace of calls included, is the one before the request:
    no store call was made and no category row was created. *)
Theorem addExpense_rejects_incomplete (newExpense : ExpenseRecord) (w : World) :
  truthy (description newExpense) = false
  \/ truthy (amount newExpense) = false
  \/ truthy (category newExpense) = false ->
  addExpense newExpense w
  = ({| status := 400; body := ErrorBody "Missing required fields" |}, w).
Proof.
  intros H. unfold addExpense.
  destruct H as [-> | [-> | ->]]; cbn [negb orb];
    rewrite ?orb_true_r; reflexivity.
Qed.

Lemma addExpense_rejects_incomplete_witness :
  truthy (amount withoutAmount) = false
  /\ addExpense withoutAmount emptyWorld
     = ({| status := 400; body := ErrorBody "Missing required fields" |},
        emptyWorld).
Proof.
  split; [reflexivity |].
  apply (addExpense_rejects_incomplete withoutAmount emptyWorld).
  right; left; reflexivity.
Defined.

(** *** The category resolver *)

(** The rows the lookup selects. *)
Definition lookup (expense : ExpenseRecord) (w : World) : list CategoryRow :=
  filter (fun r => cat_name r = sought (category expense)) (categories w).

(** The lookup reports an error: the call failed, or it selected no row
    or several. *)
Definition lookup_errs (expense : ExpenseRecord) (w : World) : Prop :=
  fault 0 w = true \/ forall row, lookup expense w <> [row].

(** The row the resolver inserts. *)
Definition newCategory (expense : ExpenseRecord) (w : World) : CategoryRow :=
  {| cat_id := categories_seq w + 1; cat_name := json (category expense);
     cat_subCategories := [json (subCategory expense)] |}.

(** The three ways a resolution from [w] to [w1] can go, with its result
    and the store calls it makes. *)
Inductive Resolution (expense : ExpenseRecord) (w w1 : World)
  : Result Thrown Z -> list (Call * bool) -> Prop :=
| Found row f1 :
    fault 0 w = false -> lookup expense w = [row] ->
    categories w1 = categories w ->
    Resolution expense w w1 (Ok (cat_id row))
      [(SelectCategoryByName (category expense), false); (InsertErrorLog, f1)]
| Created f0 f1 f3 :
    lookup_errs expense w -> fault 2 w = false ->
    categories w1 = categories w ++ [newCategory expense w] ->
    Resolution expense w w1 (Ok (categories_seq w + 1)%Z)
      [(SelectCategoryByName (category expense), f0); (InsertErrorLog, f1);
       (InsertCategory (category expense) [subCategory expense], false);
       (InsertErrorLog, f3)]
| CreationFailed f0 f1 f3 :
    lookup_errs expense w -> fault 2 w = true ->
    categories w1 = categories w ->
    Resolution expense w w1 (Err (createError Unavailable))
      [(SelectCategoryByName (category expense), f0); (InsertErrorLog, f1);
       (InsertCategory (category expense) [subCategory expense], true);
       (InsertErrorLog, f3)].

Lemma resolveCategory_effect (expense : ExpenseRecord) (w w1 : World)
    (r : Result Thrown Z) :
  resolveCategory expense w = (r, w1) ->
  expenses w1 = expenses w /\ expenses_seq w1 = expenses_seq w
  /\ exists tr, calls w1 = calls w ++ tr
                /\ faults w1 = drop (length tr) (faults w)
                /\ Resolution expense w w1 r tr.
Proof.
  unfold resolveCategory. run_store. world_simpl.
  repeat (case_decision; world_simpl).
  all: intros [= <- <-]; world_simpl; rewrite <- ?app_assoc; cbn [app].
  all: split; [reflexivity | split; [reflexivity |]].
  all: eexists; split; [reflexivity |].
  all: unfold or_array, truthy_array.
  all: split; [cbn [length]; now rewrite ?tail_as_drop, ?drop_drop |].
  all: first [ eapply Created | eapply CreationFailed | eapply Found ];
    world_simpl; try reflexivity; try assumption.
  all: unfold lookup_errs, fault;
    rewrite ?tail_as_drop, ?drop_drop in *; cbn [Nat.add drop] in *;
    try assumption.
  all: first [ left; assumption
             | right; intros row; unfold lookup; congruence ].
Qed.

(** C4, at an expense that names a category the table lacks and no
    sub-category: the row created for the category lists the single
    entry null, not "General". The array [[expense.subCategory]] is
    truthy whatever it holds, so the alternative of [||] is never
    taken. *)
Theorem resolveCategory_default_subCategory_lost :
  exists w',
    resolveCategory hay emptyWorld = (Ok 1%Z, w')
    /\ categories w'
       = [{| cat_id := 1; cat_name := JStr "Feed";
             cat_subCategories := [JNull] |}]
    /\ forall row, row ∈ categories w' ->
                   cat_subCategories row <> [JStr "General"].
Proof.
  eexists. split; [vm_compute; reflexivity |].
  split; [reflexivity |].
  intros row Hrow. apply list_elem_of_singleton in Hrow. subst row.
  discriminate.
Qed.

(** A resolution depends on the state it starts from through the
    categories table, its sequence and the scheduled outcomes only. *)
Lemma Resolution_ext (expense : ExpenseRecord) (v w w1 : World)
    (r : Result Thrown Z) (tr : list (Call * bool)) :
  categories v = categories w -> categories_seq v = categories_seq w ->
  faults v = faults w ->
  Resolution expense v w1 r tr -> Resolution expense w w1 r tr.
Proof.
  intros Hc Hs Hf H. inversion H; subst; rewrite ?Hs.
  all: [> eapply Found | eapply Created | eapply CreationFailed ].
  all: unfold lookup_errs, lookup, fault, newCategory in *;
    rewrite ?Hc, ?Hs, ?Hf in *; assumption.
Qed.

(** *** Inserting an expense *)

(** How [insertExpense] ends once the category is resolved to
    [categoryId]: the calls it still makes, its result and the expenses
    table afterwards. *)
Inductive Insertion (expense : ExpenseRecord) (categoryId : Z) (w w' : World)
  : Result Thrown ExpenseRow -> list (Call * bool) -> Prop :=
| Inserted f4 :
    expenses w'
    = expenses w ++ [expenseData expense categoryId (expenses_seq w + 1)] ->
    Insertion expense categoryId w w'
      (Ok (expenseData expense categoryId (expenses_seq w + 1)))
      [(InsertErrorLog, f4); (InsertExpense, false)]
| InsertFailed f4 f6 :
    expenses w' = expenses w ->
    Insertion expense categoryId w w' (Err (insertError Unavailable))
      [(InsertErrorLog, f4); (InsertExpense, true); (InsertErrorLog, f6)].

Lemma insertExpense_effect (expense : ExpenseRecord) (w w' : World)
    (r : Result Thrown ExpenseRow) :
  insertExpense expense w = (r, w') ->
  exists r1 w1 tr1,
    Resolution expense w w1 r1 tr1
    /\ categories w' = categories w1
    /\ match r1 with
       | Err thrown =>
           r = Err thrown /\ expenses w' = expenses w /\ since w w' = tr1
       | Ok categoryId =>
           exists tr2, Insertion expense categoryId w w' r tr2
                       /\ since w w' = tr1 ++ tr2
       end.
Proof.
  unfold insertExpense. unfold bind at 1. unfold console_out.
  unfold bind at 1.
  destruct (resolveCategory expense _) as [r1 w1] eqn:E.
  apply resolveCategory_effect in E as (He & Hs & tr1 & Hc & Hf & Hres).
  apply Resolution_ext with (w := w) in Hres; [| reflexivity ..].
  world_simpl_in He. world_simpl_in Hs.
  world_simpl_in Hc.
  intros H. exists r1, w1, tr1. split; [exact Hres |]. revert H.
  destruct r1 as [categoryId | thrown].
  - run_store. world_simpl. case_decision; world_simpl.
    all: intros [= <- <-]; world_simpl; split; [reflexivity |].
    all: eexists; split;
      [ | apply since_app; world_simpl; rewrite Hc, <- ?app_assoc; cbn [app];
          reflexivity ].
    + apply InsertFailed. world_simpl. exact He.
    + rewrite Hs. apply Inserted. world_simpl. now rewrite He.
  - run_store. intros [= <- <-]. world_simpl.
    split; [reflexivity |]. split; [reflexivity |]. split; [exact He |].
    apply since_app. world_simpl. exact Hc.
Qed.

(** Decides membership of a trace entry in an explicit trace. *)
Ltac trace_mem H :=
  cbn [app] in H;
  repeat (apply elem_of_cons in H as [H | H]; [try discriminate H |]);
  try (apply elem_of_nil in H; destruct H).

Lemma since_refl (w : World) : since w w = [].
Proof. unfold since. apply drop_all. Qed.

Lemma insertExpense_creation_failure
    (expense : ExpenseRecord) (w w' : World) (r : Result Thrown ExpenseRow)
    (name : jsval) (subCategories : list jsval) :
  insertExpense expense w = (r, w') ->
  (InsertCategory name subCategories, true) ∈ since w w' ->
  r = Err (createError Unavailable)
  /\ expenses w' = expenses w
  /\ forall failed, (InsertExpense, failed) ∉ since w w'.
Proof.
  intros H Hin.
  apply insertExpense_effect in H as (r1 & w1 & tr1 & Hres & _ & H).
  inversion Hres; subst.
  - destruct H as (tr2 & Hins & Hs). rewrite Hs in Hin.
    inversion Hins; subst; trace_mem Hin.
  - destruct H as (tr2 & Hins & Hs). rewrite Hs in Hin.
    inversion Hins; subst; trace_mem Hin.
  - destruct H as (-> & He & Hs). split; [reflexivity |]. split; [exact He |].
    intros failed Hm. rewrite Hs in Hm. trace_mem Hm.
Qed.

Lemma addExpense_creation_failure (newExpense : ExpenseRecord) (w w' : World)
    (resp : Response) (name : jsval) (subCategories : list jsval) :
  addExpense newExpense w = (resp, w') ->
  (InsertCategory name subCategories, true) ∈ since w w' ->
  resp = {| status := 500; body := ErrorBody "Failed to add expense" |}
  /\ expenses w' = expenses w.
Proof.
  unfold addExpense.
  destruct (negb _ || negb _ || negb _).
  - intros [= <- <-] Hin. rewrite since_refl in Hin. trace_mem Hin.
  - unfold bind at 1.
    destruct (insertExpense newExpense w) as [r w1] eqn:E.
    intros H Hin.
    assert (Hc : calls w' = calls w1)
      by (destruct r; revert H; run_store; now intros [= <- <-]).
    assert (He : expenses w' = expenses w1)
      by (destruct r; revert H; run_store; now intros [= <- <-]).
    unfold since in Hin. rewrite Hc in Hin.
    destruct (insertExpense_creation_failure _ _ _ _ _ _ E Hin)
      as (-> & He1 & _).
    revert H. run_store. intros [= <- <-]. split; [reflexivity |].
    exact He1.
Qed.

(** C5. When the insert of a missing category fails during
    [insertExpense], the call throws the error of that insert, the
    expenses table is the one before the call, and no insert into it
    was even requested; [addExpense] then answers with status 500, the
    expenses table unchanged. No expense row is stored after a failed
    resolution, whatever its category id. *)
Theorem category_creation_failure_aborts_ingestion
    (expense : ExpenseRecord) (w : World)
    (name : jsval) (subCategories : list jsval) :
  (forall r w',
      insertExpense expense w = (r, w') ->
      (InsertCategory name subCategories, true) ∈ since w w' ->
      r = Err (createError Unavailable)
      /\ expenses w' = expenses w
      /\ forall failed, (InsertExpense, failed) ∉ since w w')
  /\ (forall resp w',
        addExpense expense w = (resp, w') ->
        (InsertCategory name subCategories, true) ∈ since w w' ->
        resp = {| status := 500; body := ErrorBody "Failed to add expense" |}
        /\ expenses w' = expenses w).
Proof.
  split.
  - intros r w'. apply insertExpense_creation_failure.
  - intros resp w'. apply addExpense_creation_failure.
Qed.

(** The category lookup misses and the insert of the category fails. *)
Definition creationFails : World :=
  {| categories := []; expenses := []; error_logs := [];
     categories_seq := 0; expenses_seq := 0;
     faults := [false; false; true]; calls := []; console := [] |}.

Lemma category_creation_failure_aborts_ingestion_witness :
  (InsertCategory (JStr "Feed") [JUndefined], true)
    ∈ since creationFails (snd (insertExpense hay creationFails))
  /\ fst (insertExpense hay creationFails) = Err (createError Unavailable)
  /\ expenses (snd (insertExpense hay creationFails)) = []
  /\ fst (addExpense hay creationFails)
     = {| status := 500; body := ErrorBody "Failed to add expense" |}
  /\ expenses (snd (addExpense hay creationFails)) = [].
Proof.
  assert (Hin : (InsertCategory (JStr "Feed") [JUndefined], true)
                  ∈ since creationFails (snd (insertExpense hay creationFails))).
  { vm_compute. apply list_elem_of_In. cbn. tauto. }
  assert (Hin' : (InsertCategory (JStr "Feed") [JUndefined], true)
                   ∈ since creationFails (snd (addExpense hay creationFails))).
  { vm_compute. apply list_elem_of_In. cbn. tauto. }
  split; [exact Hin |].
  destruct (category_creation_failure_aborts_ingestion
              hay creationFails (JStr "Feed") [JUndefined]) as [Hi Ha].
  destruct (Hi _ _ (surjective_pairing _) Hin) as (Hr & He & _).
  destruct (Ha _ _ (surjective_pairing _) Hin') as (Hr' & He').
  repeat split; assumption.
Defined.

(** *** Sequential idempotence of the resolver *)

Lemma available_drop (w w1 : World) (k : nat) :
  available w -> faults w1 = drop k (faults w) -> available w1.
Proof. unfold available. intros H ->. now apply Forall_drop. Qed.

(** With the store answering and at most one row of the name, the
    resolver of a name that is given returns the identifier of a row of
    that name, and that row is the only one of the name afterwards: the
    one that was there, found without any insert, or the one the
    resolver created and appended. *)
Lemma resolveCategory_available (expense : ExpenseRecord) (w : World) :
  given (category expense) ->
  available w -> length (lookup expense w) <= 1 ->
  exists row w1,
    resolveCategory expense w = (Ok (cat_id row), w1)
    /\ available w1
    /\ lookup expense w1 = [row]
    /\ cat_name row = category expense
    /\ (lookup expense w = [] -> categories w1 = categories w ++ [row])
    /\ (forall row0, lookup expense w = [row0] ->
        row = row0
        /\ categories w1 = categories w
        /\ forall name subs failed,
             (InsertCategory name subs, failed) ∉ since w w1).
Proof.
  intros Hgiven Hav Hlen.
  destruct (resolveCategory expense w) as [r w1] eqn:E.
  apply resolveCategory_effect in E as (_ & _ & tr & Hc & Hf & Hres).
  pose proof (available_drop _ _ _ Hav Hf) as Hav1.
  inversion Hres as [row f1 H0 Hl Hcat | f0 f1 f3 Herr H2 Hcat
                    | f0 f1 f3 Herr H2 Hcat]; subst.
  - exists row, w1. split; [reflexivity |]. split; [exact Hav1 |].
    split; [unfold lookup in *; now rewrite Hcat |].
    split.
    { assert (Hin : row ∈ lookup expense w) by (rewrite Hl; left).
      apply list_elem_of_filter in Hin as [Hname _].
      now rewrite Hname, sought_given. }
    split; [intros Hnil; rewrite Hnil in Hl; discriminate |].
    intros row0 Hl0. rewrite Hl in Hl0. injection Hl0 as <-.
    split; [reflexivity |]. split; [exact Hcat |].
    intros name subs failed Hm. rewrite (since_app _ _ _ Hc) in Hm.
    trace_mem Hm.
  - exists (newCategory expense w), w1.
    split; [reflexivity |]. split; [exact Hav1 |].
    assert (Hnil : lookup expense w = []).
    { destruct Herr as [Hfault | Hne].
      - rewrite (available_fault w 0 Hav) in Hfault. discriminate.
      - destruct (lookup expense w) as [| row [| row' rows]];
          [reflexivity | now destruct (Hne row) | cbn in Hlen; lia]. }
    split.
    { unfold lookup in *. rewrite Hcat, filter_app, Hnil.
      cbn [app]. rewrite filter_cons_True
        by (cbn; now rewrite sought_given, json_given).
      now rewrite filter_nil. }
    split; [cbn; now apply json_given |].
    split; [intros _; exact Hcat |].
    intros row0 Hl0. rewrite Hnil in Hl0. discriminate.
  - rewrite (available_fault w 2 Hav) in H2. discriminate.
Qed.

(** Two sequential resolutions of one category name, on a store that
    answers its calls and holds at most one row of that name, return
    the same identifier, which is the identifier of the one row the
    table then holds under that name: the row that was there, or a row
    the first resolution appended. The second resolution finds that
    row, requests no insert into categories and leaves the table as the
    first one left it. *)
Theorem resolveCategory_idempotent (name : string)
    (first second : ExpenseRecord) (w : World) :
  category first = JStr name -> category second = JStr name ->
  available w -> length (lookup first w) <= 1 ->
  exists row w1 w2,
    resolveCategory first w = (Ok (cat_id row), w1)
    /\ resolveCategory second w1 = (Ok (cat_id row), w2)
    /\ filter (fun r => cat_name r = JStr name) (categories w1) = [row]
    /\ (categories w1 = categories w
        \/ (lookup first w = [] /\ categories w1 = categories w ++ [row]))
    /\ categories w2 = categories w1
    /\ forall n subs failed, (InsertCategory n subs, failed) ∉ since w1 w2.
Proof.
  intros Hfirst Hsecond Hav Hlen.
  assert (Hg1 : given (category first))
    by (rewrite Hfirst; split; discriminate).
  assert (Hg2 : given (category second))
    by (rewrite Hsecond; split; discriminate).
  destruct (resolveCategory_available first w Hg1 Hav Hlen)
    as (row & w1 & E1 & Hav1 & Hl1 & _ & Hnew & Hold).
  assert (Hl1' : lookup second w1 = [row])
    by (unfold lookup in *; now rewrite Hsecond, <- Hfirst).
  destruct (resolveCategory_available second w1 Hg2 Hav1)
    as (row' & w2 & E2 & _ & _ & _ & _ & Hsame); [now rewrite Hl1' |].
  destruct (Hsame row Hl1') as (-> & Hcat & Hno).
  exists row, w1, w2. split; [exact E1 |]. split; [exact E2 |].
  split; [unfold lookup in Hl1; now rewrite Hfirst in Hl1 |].
  split; [| split; [exact Hcat | exact Hno]].
  destruct (lookup first w) as [| row0 rest] eqn:Hl0.
  - right. split; [reflexivity |]. now apply Hnew.
  - left. destruct rest; [| cbn in Hlen; lia].
    now destruct (Hold row0 eq_refl) as (_ & Hc & _).
Qed.

Definition strawForFeed : ExpenseRecord :=
  {| id := JUndefined; date := JStr "2024-01-07"; type := JStr "Expense";
     description := JStr "Straw"; amount := num 5; paidBy := JStr "Asha";
     category := JStr "Feed"; subCategory := JStr "Bedding";
     source := JUndefined; notes := JUndefined |}.

Lemma resolveCategory_idempotent_witness :
  exists w1 w2,
    resolveCategory hay emptyWorld = (Ok 1%Z, w1)
    /\ resolveCategory strawForFeed w1 = (Ok 1%Z, w2)
    /\ map cat_name (categories w1) = [JStr "Feed"]
    /\ categories w2 = categories w1.
Proof.
  destruct (resolveCategory_idempotent "Feed" hay strawForFeed emptyWorld)
    as (row & w1 & w2 & E1 & E2 & Hrow & Hcat & Hsame & _).
  - reflexivity.
  - reflexivity.
  - constructor.
  - cbn. lia.
  - destruct Hcat as [Hcat | [_ Hcat]].
    + rewrite Hcat in Hrow. discriminate Hrow.
    + assert (Hid : row = newCategory hay emptyWorld).
      { pose proof (resolveCategory_effect hay emptyWorld w1 _ E1)
          as (_ & _ & tr & _ & _ & Hres).
        inversion Hres as [r0 f1 H0 Hl Hc | f0 f1 f3 Herr H2 Hc
                          | f0 f1 f3 Herr H2 Hc]; subst.
        - discriminate Hl.
        - rewrite Hc in Hcat. now apply app_inj_tail in Hcat as [_ <-]. }
      subst row. exists w1, w2. split; [exact E1 |]. split; [exact E2 |].
      split; [now rewrite Hcat | exact Hsame].
Defined.

(** *** Bulk import *)

(** One pass of [insertExpense] adds one row when it succeeds and none
    when it throws. *)
Lemma insertExpense_rows (expense : ExpenseRecord) (w w' : World)
    (r : Result Thrown ExpenseRow) :
  insertExpense expense w = (r, w') ->
  match r with
  | Ok row => expenses w' = expenses w ++ [row]
  | Err _ => expenses w' = expenses w
  end.
Proof.
  intros H.
  apply insertExpense_effect in H as (r1 & w1 & tr1 & _ & _ & H).
  destruct r1 as [categoryId | thrown].
  - destruct H as (tr2 & Hins & _). now inversion Hins; subst.
  - now destruct H as (-> & He & _).
Qed.

(** The loop goes through every record, whatever happened to the
    ones before: each record either raises the count of successes and
    adds a row, or adds an error message and no row. *)
Lemma importLoop_counts (importedExpenses : list (option ExpenseRecord)) :
  Forall is_Some importedExpenses ->
  forall (successCount : nat) (errors : list (list jsval)) (w : World),
  exists (successCount' : nat) (errors' : list (list jsval)) (w' : World),
    importLoop importedExpenses successCount errors w
    = (Some (successCount', errors'), w')
    /\ (successCount' + length errors'
        = successCount + length errors + length importedExpenses)%nat
    /\ (length (expenses w') + successCount
        = length (expenses w) + successCount')%nat
    /\ (length errors <= length errors')%nat.
Proof.
  induction 1 as [| [expense |] rest Hsome _ IH];
    intros successCount errors w.
  - exists successCount, errors, w. cbn. repeat split; lia.
  - cbn [importLoop]. unfold bind at 1.
    destruct (insertExpense expense w) as [r w1] eqn:E.
    apply insertExpense_rows in E.
    destruct r as [row | thrown].
    + destruct (IH (S successCount) errors w1)
        as (successCount' & errors' & w' & -> & H1 & H2 & H3).
      exists successCount', errors', w'. split; [reflexivity |].
      rewrite E, length_app in H2. cbn [length] in *. lia.
    + unfold bind at 1, console_out.
      destruct (IH successCount
                   (errors ++ [[JStr "Failed to import: "; description expense]])
                   (add_console error "Error importing expense:" w1))
        as (successCount' & errors' & w' & -> & H1 & H2 & H3).
      exists successCount', errors', w'. split; [reflexivity |].
      world_simpl_in H2.
      rewrite E in H2. rewrite length_app in H1, H3. cbn [length] in *. lia.
  - now destruct Hsome.
Qed.

(** A null element ends the loop: the elements after it are not looked
    at, and the tables are those the elements before it left. *)
Lemma importLoop_null (before after : list (option ExpenseRecord)) :
  Forall is_Some before ->
  forall (successCount : nat) (errors : list (list jsval)) (w : World),
  exists w',
    importLoop (before ++ None :: after) successCount errors w = (None, w')
    /\ expenses w'
       = expenses (snd (importLoop before successCount errors w))
    /\ categories w'
       = categories (snd (importLoop before successCount errors w)).
Proof.
  induction 1 as [| [expense |] rest Hsome _ IH];
    intros successCount errors w.
  - cbn. eexists. split; [reflexivity |]. split; reflexivity.
  - cbn [app importLoop]. unfold bind, console_out.
    destruct (insertExpense expense w) as [r w1].
    destruct r as [row | thrown]; apply IH.
  - now destruct Hsome.
Qed.

Definition errorCount (errors : option (list (list jsval))) : nat :=
  match errors with
  | Some es => length es
  | None => 0
  end.

(** The response of a bulk import. For an array of records the answer
    is 200: [totalCount] is the length of the input, [successCount] the
    number of rows added to the expenses table, the two differ by the
    number of error messages, and the errors array is present exactly
    when it is not empty. An array that holds null is answered with
    500: the import stops at the first null, and the tables are those
    that the import of the records before it leaves. *)
Lemma importExpenses_reports (importedExpenses : list (option ExpenseRecord))
    (w : World) :
  (Forall is_Some importedExpenses ->
   exists message successCount errors w',
     importExpenses (Some importedExpenses) w
     = ({| status := 200;
           body := ImportBody message successCount
                              (length importedExpenses) errors |}, w')
     /\ length (expenses w') = (length (expenses w) + successCount)%nat
     /\ (successCount + errorCount errors = length importedExpenses)%nat
     /\ errors <> Some [])
  /\ (forall before after,
        importedExpenses = before ++ None :: after ->
        Forall is_Some before ->
        exists w',
          importExpenses (Some importedExpenses) w
          = ({| status := 500;
                body := ErrorBody "Failed to import expenses" |}, w')
          /\ expenses w' = expenses (snd (importExpenses (Some before) w))
          /\ categories w'
             = categories (snd (importExpenses (Some before) w))).
Proof.
  split.
  - intros Hall. unfold importExpenses. unfold bind at 1.
    destruct (importLoop_counts importedExpenses Hall 0 [] w)
      as (successCount & errors & w' & -> & H1 & H2 & _).
    cbn [length] in *. unfold ret.
    destruct errors as [| e es]; cbn [length Nat.ltb Nat.leb].
    + do 4 eexists. split; [reflexivity |]. cbn [errorCount length] in *.
      split; [lia |]. split; [lia | discriminate].
    + do 4 eexists. split; [reflexivity |]. cbn [errorCount length] in *.
      split; [lia |]. split; [lia | discriminate].
  - intros before after -> Hbefore. unfold importExpenses.
    unfold bind at 1 3 5.
    destruct (importLoop_null before after Hbefore 0 [] w)
      as (w' & -> & He & Hc).
    destruct (importLoop_counts before Hbefore 0 [] w)
      as (successCount & errors & w1 & E & _).
    rewrite E in *. cbn [snd] in *.
    unfold bind, console_out, ret. cbn [fst snd].
    eexists. split; [reflexivity |]. world_simpl. auto.
Qed.

(** C6, at the batch of one complete record and one record without a
    description, on a store that answers every call: [importExpenses]
    does not validate, so both records are stored, the second with a
    null description, and the response counts two successes and
    carries no errors; [addExpense] refuses that same record. *)
Theorem importExpenses_stores_record_without_description :
  (exists w',
      importExpenses (Some [Some hay; Some withoutDescription]) emptyWorld
      = ({| status := 200; body := ImportBody "Import completed" 2 2 None |}, w')
      /\ map row_description (expenses w') = [JStr "Hay"; JNull])
  /\ fst (addExpense withoutDescription emptyWorld)
     = {| status := 400; body := ErrorBody "Missing required fields" |}.
Proof.
  split; [| reflexivity].
  eexists. split; [vm_compute; reflexivity | reflexivity].
Qed.

(** *** Bulk delete *)

Lemma numericIds_length (ids : list string) :
  length (numericIds ids)
  = length (filter (fun s => is_Some (parseInt s)) ids).
Proof.
  unfold numericIds. induction ids as [| s ids IH]; [reflexivity |].
  cbn [omap list_omap]. destruct (parseInt s) as [n |] eqn:E.
  - rewrite filter_cons_True by (rewrite E; eauto). cbn. now rewrite IH.
  - rewrite filter_cons_False by (rewrite E; apply is_Some_None). exact IH.
Qed.

(** C10. The answer to a bulk delete is decided by the ids that parse
    as integers. When there is none the handler answers 400 and the
    state, its trace of store calls included, is the one before the
    request. Otherwise it issues one delete for the parsed ids; when
    that call succeeds, [deletedCount] is the number of ids that parse,
    whatever the rows the store held. *)
Theorem bulkDeleteExpenses_counts_parseable_ids
    (ids : list string) (w w' : World) (resp : Response) :
  bulkDeleteExpenses (Some ids) w = (resp, w') ->
  match filter (fun s => is_Some (parseInt s)) ids with
  | [] =>
      resp = {| status := 400; body := ErrorBody "No valid IDs provided" |}
      /\ w' = w
  | parseable =>
      since w w' = [(DeleteExpensesIn (numericIds ids), next_fault w)]
      /\ if next_fault w then
           resp = {| status := 500;
                     body := ErrorBody "Failed to delete expenses" |}
           /\ expenses w' = expenses w
         else
           resp = {| status := 200;
                     body := DeleteBody "Expenses deleted successfully"
                                        (length parseable) |}
           /\ expenses w'
              = filter (fun r => row_id r ∉ numericIds ids) (expenses w)
  end.
Proof.
  unfold bulkDeleteExpenses. rewrite numericIds_length.
  destruct (filter _ ids) as [| s parseable] eqn:E.
  - cbn. now intros [= <- <-].
  - cbn [length Nat.eqb]. run_store.
    destruct (hd false (faults w)) eqn:F; intros [= <- <-].
    + split; [apply since_app; reflexivity |]. split; reflexivity.
    + split; [apply since_app; reflexivity |]. split; reflexivity.
Qed.

(** Three stored expenses, numbered 1 to 3. *)
Definition threeExpenses : World :=
  snd (importLoop [Some hay; Some strawForFeed; Some hay] 0 [] emptyWorld).

Lemma bulkDeleteExpenses_counts_parseable_ids_witness :
  fst (bulkDeleteExpenses (Some ["2"; "x"; "40"; "41"]) threeExpenses)
  = {| status := 200;
       body := DeleteBody "Expenses deleted successfully" 3 |}
  /\ map row_id (expenses threeExpenses) = [1; 2; 3]%Z
  /\ map row_id
       (expenses (snd (bulkDeleteExpenses (Some ["2"; "x"; "40"; "41"])
                                          threeExpenses)))
     = [1; 3]%Z.
Proof.
  pose proof (bulkDeleteExpenses_counts_parseable_ids
                ["2"; "x"; "40"; "41"] threeExpenses _ _
                (surjective_pairing _)) as H.
  vm_compute in H. destruct H as (_ & Hresp & Hexp).
  split; [exact Hresp |]. split; [vm_compute; reflexivity |].
  vm_compute. reflexivity.
Defined.

End ExpenseFacts.

(** ** The dashboard summary *)

Module AnimalFacts.
Import AnimalTypes Animals.

(** *** The stable sort puts a greatest element first *)

Section SortFacts.
Context {A : Type} (key : A -> Z).

(** Descending by [key], as [byDateDescending] is by date. *)
Let descending (a b : A) : Z := (key b - key a)%Z.

Lemma insert_length (x : A) (l : list A) :
  length (insert descending x l) = S (length l).
Proof.
  induction l as [| y l IH]; [reflexivity |].
  cbn [insert]. destruct (descending x y <=? 0)%Z; cbn [length]; congruence.
Qed.

Lemma sort_length (l : list A) : length (sort descending l) = length l.
Proof.
  induction l as [| x l IH]; [reflexivity |].
  cbn [sort]. rewrite insert_length. cbn [length]. congruence.
Qed.

Lemma insert_elem (x y : A) (l : list A) :
  y ∈ insert descending x l <-> y = x \/ y ∈ l.
Proof.
  induction l as [| z l IH]; cbn [insert].
  - rewrite list_elem_of_singleton, elem_of_nil. tauto.
  - destruct (descending x z <=? 0)%Z.
    + rewrite elem_of_cons. tauto.
    + rewrite !elem_of_cons, IH. tauto.
Qed.

Lemma sort_elem (y : A) (l : list A) : y ∈ sort descending l <-> y ∈ l.
Proof.
  induction l as [| x l IH]; cbn [sort]; [tauto |].
  rewrite insert_elem, elem_of_cons, IH. tauto.
Qed.

(** The first element of the sorted list has the greatest key. *)
Lemma sort_head_greatest (l : list A) (first : A) (rest : list A) :
  sort descending l = first :: rest ->
  first ∈ l /\ forall y, y ∈ l -> (key y <= key first)%Z.
Proof.
  revert first rest. induction l as [| x l IH]; intros first rest;
    [discriminate |].
  cbn [sort]. destruct (sort descending l) as [| h t] eqn:Hs.
  - assert (l = []) as ->
      by (apply length_zero_iff_nil; now rewrite <- sort_length, Hs).
    cbn [insert]. intros [= <- <-]. split; [left |].
    intros y Hy. apply list_elem_of_singleton in Hy as ->. lia.
  - destruct (IH h t eq_refl) as [Hh Hmax].
    cbn [insert]. destruct (descending x h <=? 0)%Z eqn:Hc.
    + intros [= <- <-]. split; [left |].
      intros y [-> | Hy]%elem_of_cons; [lia |].
      apply Z.leb_le in Hc. unfold descending in Hc.
      specialize (Hmax y Hy). lia.
    + intros [= <- <-]. split; [now right |].
      intros y [-> | Hy]%elem_of_cons; [| now apply Hmax].
      apply Z.leb_gt in Hc. unfold descending in Hc. lia.
Qed.

Lemma sort_nil_inv (l : list A) : sort descending l = [] -> l = [].
Proof.
  intros H. apply length_zero_iff_nil. now rewrite <- sort_length, H.
Qed.
End SortFacts.

(** *** Sums of rationals *)

Fixpoint Qsum (l : list Q) : Q :=
  match l with
  | [] => 0%Q
  | x :: l' => (x + Qsum l')%Q
  end.

Lemma fold_left_Qsum {A} (f : A -> Q) (l : list A) (a : Q) :
  (fold_left (fun sum x => sum + f x) l a == a + Qsum (map f l))%Q.
Proof.
  revert a. induction l as [| x l IH]; intros a; cbn [fold_left map Qsum].
  - now rewrite Qplus_0_r.
  - rewrite IH. now rewrite Qplus_assoc.
Qed.

Lemma Qsum_filter {A} (P : A -> Prop) `{forall a, Decision (P a)}
    (f : A -> Q) (l : list A) :
  (Qsum (map f (filter P l))
   == Qsum (map (fun a => if decide (P a) then f a else 0) l))%Q.
Proof.
  induction l as [| x l IH]; [reflexivity |].
  cbn [map Qsum]. destruct (decide (P x)) as [Hx | Hx].
  - rewrite filter_cons_True by exact Hx. cbn [map Qsum]. now rewrite IH.
  - rewrite filter_cons_False by exact Hx. now rewrite IH, Qplus_0_l.
Qed.

(** [x || 0] is [x] when there is one, and 0 when there is none. *)
Lemma orZero_default (x : option Q) : (orZero x == default 0 x)%Q.
Proof.
  destruct x as [q |]; cbn [orZero default]; [| reflexivity].
  destruct (Qeq_bool q 0) eqn:E; [| reflexivity].
  symmetry. now apply Qeq_bool_iff.
Qed.

(** *** Latest weight and average *)

Lemma latestWeight_cases (getTime : string -> Z)
    (weightRecords : list WeightRecord) (animal : AnimalRecord) :
  (exists r,
      r ∈ weightRecords /\ animalId r = id animal
      /\ (forall r', r' ∈ weightRecords -> animalId r' = id animal ->
                     (getTime (date r') <= getTime (date r))%Z)
      /\ latestWeight getTime weightRecords animal = weight r)
  \/ ((forall r, r ∈ weightRecords -> animalId r <> id animal)
      /\ latestWeight getTime weightRecords animal
         = orZero (currentWeight animal)).
Proof.
  unfold latestWeight, byDateDescending.
  destruct (sort _ (filter _ weightRecords)) as [| first rest] eqn:Hs.
  - right. split; [| reflexivity].
    apply (sort_nil_inv (fun r => getTime (date r))) in Hs.
    intros r Hr Hid.
    assert (Hin : r ∈ filter (fun w => animalId w = id animal) weightRecords)
      by (apply list_elem_of_filter; auto).
    rewrite Hs in Hin. now apply elem_of_nil in Hin.
  - left. exists first.
    apply (sort_head_greatest (fun r => getTime (date r))) in Hs
      as [Hin Hmax].
    apply list_elem_of_filter in Hin as [Hid Hin].
    split; [exact Hin |]. split; [exact Hid |]. split; [| reflexivity].
    intros r' Hr' Hid'. apply Hmax. apply list_elem_of_filter. auto.
Qed.

(** C7. Every animal contributes the weight of one of its weight
    records of greatest date when it has any, and its current weight,
    or 0 for want of one, when it has none; the weights included in the
    average are the positive ones among these, so an animal whose
    weight comes out as zero adds nothing to the sum nor to the count;
    the average is their arithmetic mean, and 0 when none is
    included. *)
Theorem average_weight (getTime : string -> Z)
    (animals : list AnimalRecord) (weightRecords : list WeightRecord) :
  let contributing := latestWeight getTime weightRecords in
  let included := animalWeights getTime animals weightRecords in
  let summary := getAnimalSummary getTime animals weightRecords in
  (forall animal,
      (exists r,
          r ∈ weightRecords /\ animalId r = id animal
          /\ (forall r', r' ∈ weightRecords -> animalId r' = id animal ->
                         (getTime (date r') <= getTime (date r))%Z)
          /\ contributing animal = weight r)
      \/ ((forall r, r ∈ weightRecords -> animalId r <> id animal)
          /\ (contributing animal == default 0 (currentWeight animal))%Q))
  /\ included = filter (fun x => (0 < x)%Q) (map contributing animals)
  /\ (forall x, x ∈ included -> (0 < x)%Q)
  /\ (included <> [] ->
      (averageWeight summary * inject_Z (Z.of_nat (length included))
       == Qsum included)%Q)
  /\ (included = [] -> averageWeight summary = 0%Q).
Proof.
  intros contributing included summary.
  split; [| split; [reflexivity | split; [| split]]].
  - intros animal.
    destruct (latestWeight_cases getTime weightRecords animal)
      as [H | [Hnone Hw]]; [left; exact H | right].
    split; [exact Hnone |]. subst contributing. rewrite Hw.
    apply orZero_default.
  - intros x Hx. subst included. unfold animalWeights in Hx.
    now apply list_elem_of_filter in Hx as [Hpos _].
  - intros Hne. subst summary. unfold getAnimalSummary.
    cbn [averageWeight]. fold included.
    destruct included as [| x rest] eqn:E; [congruence |].
    cbn [length Nat.ltb Nat.leb].
    rewrite (fold_left_Qsum (fun weight => weight)), map_id, Qplus_0_l.
    rewrite Qmult_comm. apply Qmult_div_r.
    unfold Qeq. cbn. lia.
  - intros Hnil. subst summary. unfold getAnimalSummary.
    cbn [averageWeight]. fold included. now rewrite Hnil.
Qed.

(** A herd of three: one animal with a current weight and no record,
    one with neither, one with two records and a current weight. *)
Definition herd : list AnimalRecord :=
  [ {| id := "1"; type := "goat"; gender := "female"; status := "active";
       currentWeight := Some 45%Q; purchasePrice := None; salePrice := None |};
    {| id := "2"; type := "goat"; gender := "male"; status := "active";
       currentWeight := None; purchasePrice := None; salePrice := None |};
    {| id := "3"; type := "sheep"; gender := "female"; status := "active";
       currentWeight := Some 10%Q; purchasePrice := None; salePrice := None |} ].

Definition herdWeights : list WeightRecord :=
  [ {| animalId := "3"; weight := 30%Q; date := "2024-01-05" |};
    {| animalId := "3"; weight := 32%Q; date := "2024-02-05" |} ].

(** The dates of these records are calendar dates, which [Date] reads;
    [timeOf] is their timestamp. *)
Definition timeOf (s : string) : Z := default 0%Z (isoTime s).

Lemma herdWeights_dates_read :
  Forall (fun r => is_Some (isoTime (date r))) herdWeights.
Proof. repeat constructor; vm_compute; eauto. Qed.

(** The first animal counts with 45, the second is left out, the third
    counts with its record of February: the average is (45 + 32) / 2. *)
Example average_weight_herd :
  animalWeights timeOf herd herdWeights = [45%Q; 32%Q]
  /\ averageWeight (getAnimalSummary timeOf herd herdWeights) = (77 # 2)%Q.
Proof. split; vm_compute; reflexivity. Qed.

(** *** Financial totals *)

Definition twoAnimals : list AnimalRecord :=
  [ {| id := "1"; type := "goat"; gender := "female"; status := "active";
       currentWeight := None; purchasePrice := Some 100%Q;
       salePrice := None |};
    {| id := "2"; type := "sheep"; gender := "male"; status := "sold";
       currentWeight := None; purchasePrice := Some 200%Q;
       salePrice := Some 350%Q |} ].

(** C8. [totalInvestment] is the sum of the purchase prices of all
    animals, [totalRevenue] the sum of the sale prices of the animals
    whose status is "sold", a price that is absent counting as 0, and
    [profitLoss] is their difference; the two animals of the example
    give 300, 350 and 50. *)
Theorem financial_totals (getTime : string -> Z)
    (animals : list AnimalRecord) (weightRecords : list WeightRecord) :
  let summary := getAnimalSummary getTime animals weightRecords in
  let example := getAnimalSummary getTime twoAnimals weightRecords in
  (totalInvestment summary
   == Qsum (map (fun a => default 0 (purchasePrice a)) animals))%Q
  /\ (totalRevenue summary
      == Qsum (map (fun a => if decide (status a = "sold")
                             then default 0 (salePrice a) else 0)
                   animals))%Q
  /\ profitLoss summary = (totalRevenue summary - totalInvestment summary)%Q
  /\ totalInvestment example = 300%Q
  /\ totalRevenue example = 350%Q
  /\ profitLoss example = 50%Q.
Proof.
  intros summary example.
  assert (Hsum : forall (f : AnimalRecord -> option Q) (l : list AnimalRecord),
             (Qsum (map (fun a => orZero (f a)) l)
              == Qsum (map (fun a => default 0 (f a)) l))%Q).
  { intros f l. induction l as [| a l IH]; [reflexivity |].
    cbn [map Qsum]. now rewrite IH, orZero_default. }
  split; [| split; [| split; [reflexivity |]]].
  - subst summary. unfold getAnimalSummary. cbn [totalInvestment].
    rewrite (fold_left_Qsum (fun a => orZero (purchasePrice a))), Qplus_0_l.
    apply Hsum.
  - subst summary. unfold getAnimalSummary. cbn [totalRevenue].
    rewrite (fold_left_Qsum (fun a => orZero (salePrice a))), Qplus_0_l.
    rewrite Hsum.
    apply (Qsum_filter (fun a => status a = "sold")
                       (fun a => default 0%Q (salePrice a))).
  - subst example. vm_compute. repeat split; reflexivity.
Qed.

End AnimalFacts.

(** * Further properties *)

(** ** The reader *)

Module ReaderMore.
Import ExpenseTypes Reader ReaderFacts.

Lemma iso_date_unchanged_witness :
  isIsoDate "2024-01-05" = true
  /\ formatDate "2026-11-02" (JStr "2024-01-05") = ("2024-01-05", []).
Proof.
  split; [reflexivity |].
  exact (formatDate_iso "2026-11-02" "2024-01-05" eq_refl).
Defined.

Lemma iso_passes (today s : string) :
  isIsoDate s = true -> formatDate today (JStr s) = (s, []).
Proof.
  intros H. unfold formatDate.
  destruct s as [| c s]; [discriminate H |].
  cbn [truthy String.eqb negb]. now rewrite H.
Qed.

Definition allDigits (s : string) : bool :=
  forallb isDigit (list_ascii_of_string s).

Lemma padStart_digits (s : string) :
  allDigits s = true -> (1 <= String.length s <= 2)%nat ->
  exists a b, padStart 2 "0" s = String a (String b "")
              /\ isDigit a = true /\ isDigit b = true.
Proof.
  intros Hd Hl. destruct s as [| a [| b [| c s]]]; cbn in Hl; try lia.
  - exists "0"%char, a. cbn in *. rewrite andb_true_r in Hd. auto.
  - exists a, b. cbn in *. apply andb_true_iff in Hd as [Ha Hb].
    rewrite andb_true_r in Hb. auto.
Qed.

Lemma digit_not_slash (c : ascii) : isDigit c = true -> Ascii.eqb c "/" = false.
Proof.
  intros H. destruct (Ascii.eqb_spec c "/") as [-> | _]; [discriminate H | reflexivity].
Qed.

(** A string of the form YYYY-MM-DD holds no slash. *)
Lemma iso_one_part (s : string) : isIsoDate s = true -> split "/" s = [s].
Proof.
  unfold isIsoDate.
  destruct s as [| y1 [| y2 [| y3 [| y4 [| h1 [| m1 [| m2 [| h2 [| d1 [| d2 [| x s]]]]]]]]]]];
    cbn [list_ascii_of_string]; try discriminate.
  cbn [forallb]. intros H.
  apply andb_true_iff in H as [H Hh2]. apply andb_true_iff in H as [H Hh1].
  apply Ascii.eqb_eq in Hh1, Hh2. subst h1 h2.
  apply andb_true_iff in H as [Hy1 H]. apply andb_true_iff in H as [Hy2 H].
  apply andb_true_iff in H as [Hy3 H]. apply andb_true_iff in H as [Hy4 H].
  apply andb_true_iff in H as [Hm1 H]. apply andb_true_iff in H as [Hm2 H].
  apply andb_true_iff in H as [Hd1 H]. apply andb_true_iff in H as [Hd2 _].
  apply digit_not_slash in Hy1, Hy2, Hy3, Hy4, Hm1, Hm2, Hd1, Hd2.
  cbn [split]. rewrite Hy1, Hy2, Hy3, Hy4, Hm1, Hm2, Hd1, Hd2.
  reflexivity.
Qed.

(** A date of three slash-separated parts whose month and day are one
    or two digits and whose year is four digits is rewritten into a
    string of the form YYYY-MM-DD, silently; normalizing that string
    again leaves it as it is. *)
Theorem slash_date_becomes_iso (today s month day year : string) :
  split "/" s = [month; day; year] ->
  allDigits month = true -> (1 <= String.length month <= 2)%nat ->
  allDigits day = true -> (1 <= String.length day <= 2)%nat ->
  allDigits year = true -> String.length year = 4%nat ->
  let normalized := fst (formatDate today (JStr s)) in
  normalized = (year ++ "-" ++ padStart 2 "0" month ++ "-" ++ padStart 2 "0" day)%string
  /\ isIsoDate normalized = true
  /\ snd (formatDate today (JStr s)) = []
  /\ formatDate today (JStr normalized) = (normalized, []).
Proof.
  intros Hsplit Hm Hml Hd Hdl Hy Hyl normalized.
  assert (Hne : s <> "") by (intros ->; discriminate Hsplit).
  assert (Hiso : isIsoDate s = false).
  { destruct (isIsoDate s) eqn:E; [| reflexivity].
    apply iso_one_part in E. rewrite E in Hsplit. discriminate Hsplit. }
  assert (Hf := formatDate_slashes today s month day year Hne Hiso Hsplit).
  subst normalized. rewrite Hf. cbn [fst snd].
  destruct (padStart_digits month Hm Hml) as (m1 & m2 & -> & Hm1 & Hm2).
  destruct (padStart_digits day Hd Hdl) as (d1 & d2 & -> & Hd1 & Hd2).
  destruct year as [| y1 [| y2 [| y3 [| y4 [| y5 year]]]]]; try discriminate Hyl.
  unfold allDigits in Hy. cbn [list_ascii_of_string forallb] in Hy.
  apply andb_true_iff in Hy as [Hy1 Hy].
  apply andb_true_iff in Hy as [Hy2 Hy].
  apply andb_true_iff in Hy as [Hy3 Hy].
  apply andb_true_iff in Hy as [Hy4 _].
  assert (Hisout : isIsoDate
            (String y1 (String y2 (String y3 (String y4 "")))
             ++ "-" ++ String m1 (String m2 "") ++ "-" ++ String d1 (String d2 ""))
          = true).
  { unfold isIsoDate. cbv -[isDigit Ascii.eqb].
    now rewrite Hy1, Hy2, Hy3, Hy4, Hm1, Hm2, Hd1, Hd2. }
  split; [reflexivity |]. split; [exact Hisout |]. split; [reflexivity |].
  now apply iso_passes.
Qed.

Lemma slash_date_becomes_iso_witness :
  fst (formatDate "2026-11-02" (JStr "1/5/2024")) = "2024-01-05"
  /\ isIsoDate (fst (formatDate "2026-11-02" (JStr "1/5/2024"))) = true.
Proof.
  destruct (slash_date_becomes_iso "2026-11-02" "1/5/2024" "1" "5" "2024")
    as (H1 & H2 & _); try reflexivity; try (cbn; lia).
  split; [exact H1 | exact H2].
Defined.

(** The reader warns about a date exactly when the value is truthy and
    not a string, and then keeps the current date; a string, whatever it
    holds, never makes it warn. *)
Theorem warning_only_for_non_strings (today : string) (dateStr : jsval) :
  (snd (formatDate today dateStr) <> []
   <-> truthy dateStr = true /\ forall s, dateStr <> JStr s)
  /\ (snd (formatDate today dateStr) <> [] ->
      formatDate today dateStr = (today, [Warn_InvalidDateFormat dateStr])).
Proof.
  split.
  - split.
    + intros H. destruct dateStr as [ | | b | n | s].
      * now cbn in H.
      * now cbn in H.
      * destruct b; [split; [reflexivity | discriminate] | now cbn in H].
      * unfold formatDate in H. destruct (truthy (JNum n)) eqn:E;
          [split; [reflexivity | discriminate] | now cbn in H].
      * now rewrite formatDate_string_silent in H.
    + intros [Ht Hs]. unfold formatDate. rewrite Ht.
      destruct dateStr; try discriminate. now destruct (Hs s).
  - intros H. unfold formatDate in *.
    destruct (truthy dateStr) eqn:E; [| now cbn in H].
    destruct dateStr as [ | | b | n | s]; try reflexivity.
    exfalso. apply H.
    pose proof (formatDate_string_silent today s) as Hs.
    unfold formatDate in Hs. now rewrite E in Hs.
Qed.

Definition aliasedOnly : gmap string jsval :=
  {[ "paidBy" := JStr "Bob"; "Paid By" := JStr "" ]}.

Lemma camelCase_fallback_witness :
  truthy (prop aliasedOnly (label FPaidBy)) = false
  /\ truthy (prop aliasedOnly (camelCase FPaidBy)) = true
  /\ get FPaidBy (fst (transform "2024-01-05" 0 aliasedOnly)) = JStr "Bob".
Proof.
  split; [reflexivity |]. split; [reflexivity |].
  exact (camelCase_fallback "2024-01-05" 0 aliasedOnly FPaidBy eq_refl eq_refl).
Defined.

(** What a field is given when the row holds it under neither key. *)
Definition fallback (today : string) (f : Field) : jsval :=
  match f with
  | FDate => JStr today
  | FType => JStr "Expense"
  | FDescription => JStr "No description"
  | FAmount => num 0
  | FPaidBy => JStr "Unknown"
  | FCategory => JStr "Other"
  | FSubCategory => JStr "General"
  | FSource => JStr "Unknown"
  | FNotes => JStr ""
  end.

(** A field the row holds under neither of its keys, or holds empty or
    zero under both, is read as its default: the current date,
    "Expense", "No description", 0, "Unknown", "Other", "General",
    "Unknown" and the empty string. *)
Theorem defaults_when_absent (today : string) (index : nat)
    (item : gmap string jsval) (f : Field) :
  truthy (prop item (label f)) = false ->
  truthy (prop item (camelCase f)) = false ->
  get f (fst (transform today index item)) = fallback today f.
Proof.
  intros Hl Hc. unfold transform.
  destruct (formatDate today (or (prop item "Date") (prop item "date")))
    as [formattedDate out] eqn:Hd.
  destruct f; cbn [get fst label camelCase fallback date type description amount
                   paidBy category subCategory source notes] in *;
    repeat (rewrite (truthy_or_r (prop item _)) by exact Hl);
    repeat (rewrite (truthy_or_r (prop item _)) by exact Hc);
    try reflexivity.
  rewrite (truthy_or_r (prop item _)) in Hd by exact Hl.
  unfold formatDate in Hd. rewrite Hc in Hd. now injection Hd as <- _.
Qed.

Lemma defaults_when_absent_witness :
  get FCategory (fst (transform "2024-01-05" 0 ∅)) = JStr "Other".
Proof.
  exact (defaults_when_absent "2024-01-05" 0 ∅ FCategory eq_refl eq_refl).
Defined.

Lemma mapi_lookup (today : string) (rows : list (gmap string jsval)) :
  forall (start i : nat) (item : gmap string jsval),
    rows !! i = Some item ->
    fst (mapi today start rows) !! i = Some (fst (transform today (start + i) item)).
Proof.
  induction rows as [| row rows IH]; intros start i item Hi; [discriminate |].
  cbn [mapi].
  destruct (transform today start row) as [v o] eqn:Hv.
  destruct (mapi today (S start) rows) as [vs os] eqn:Hvs.
  destruct i as [| i]; cbn in Hi |- *.
  - injection Hi as <-. now rewrite Nat.add_0_r, Hv.
  - specialize (IH (S start) i item Hi). rewrite Hvs in IH. cbn in IH.
    now rewrite Nat.add_succ_r.
Qed.

Lemma mapi_length (today : string) (rows : list (gmap string jsval)) :
  forall start, length (fst (mapi today start rows)) = length rows.
Proof.
  induction rows as [| row rows IH]; intros start; [reflexivity |].
  cbn [mapi]. destruct (transform today start row) as [v o].
  specialize (IH (S start)).
  destruct (mapi today (S start) rows) as [vs os]. cbn in *. now rewrite IH.
Qed.

(** [readExpenses] returns one record per row, in the order of the
    rows, and a row without an id of its own is given its position,
    counted from 1, as id. *)
Theorem readExpenses_positional (today : string)
    (rows : list (gmap string jsval)) (i : nat) (item : gmap string jsval) :
  rows !! i = Some item ->
  length (fst (readExpenses today (Some rows))) = length rows
  /\ fst (readExpenses today (Some rows)) !! i
     = Some (fst (transform today i item))
  /\ (truthy (prop item "id") = false ->
      id <$> fst (readExpenses today (Some rows)) !! i
      = Some (num (Z.of_nat i + 1))).
Proof.
  intros Hi. cbn [readExpenses].
  split; [apply mapi_length |].
  pose proof (mapi_lookup today rows 0 i item Hi) as H. cbn [Nat.add] in H.
  split; [exact H |].
  intros Hid. rewrite H. cbn [fmap option_fmap option_map]. f_equal.
  unfold transform.
  destruct (formatDate today _) as [formattedDate out]. cbn [fst id].
  now rewrite truthy_or_r.
Qed.

Lemma readExpenses_positional_witness :
  id <$> fst (readExpenses "2024-01-05" (Some [∅; aliasedOnly])) !! 1%nat
  = Some (num 2).
Proof.
  destruct (readExpenses_positional "2024-01-05" [∅; aliasedOnly] 1 aliasedOnly
              eq_refl) as (_ & _ & H).
  exact (H eq_refl).
Defined.

End ReaderMore.

(** ** Ingestion: what a run leaves behind *)

Module ExpenseMore.
Import ExpenseTypes Store Expenses StoreFacts ExpenseFacts.

Lemma importExpenses_reports_witness :
  exists w',
    importExpenses (Some [Some hay; None; Some withoutDescription]) emptyWorld
    = ({| status := 500; body := ErrorBody "Failed to import expenses" |}, w')
    /\ expenses w' = expenses (snd (importExpenses (Some [Some hay]) emptyWorld))
    /\ length (expenses w') = 1%nat.
Proof.
  destruct (importExpenses_reports [Some hay; None; Some withoutDescription]
              emptyWorld) as [_ H].
  destruct (H [Some hay] [Some withoutDescription] eq_refl)
    as (w' & E & He & _); [repeat constructor; eauto |].
  exists w'. split; [exact E |]. split; [exact He |]. now rewrite He.
Defined.

(** Every log call fails, every other call succeeds. *)
Definition logsFail : World :=
  {| categories := []; expenses := []; error_logs := [];
     categories_seq := 0; expenses_seq := 0;
     faults := [false; true; false; true; true; false];
     calls := []; console := [] |}.

(** Failures of the logger alone never make an ingestion fail: when no
    request of a run other than inserts into error_logs fails, the
    expense is stored. *)
Theorem log_failures_do_not_fail_ingestion (expense : ExpenseRecord)
    (w w' : World) (r : Result Thrown ExpenseRow) :
  insertExpense expense w = (r, w') ->
  (forall c, (c, true) ∈ since w w' -> c = InsertErrorLog) ->
  exists row, r = Ok row /\ expenses w' = expenses w ++ [row].
Proof.
  intros H Hlog.
  apply insertExpense_effect in H as (r1 & w1 & tr1 & Hres & _ & H).
  inversion Hres; subst.
  - destruct H as (tr2 & Hins & Hs). rewrite Hs in Hlog.
    inversion Hins; subst; [eauto |].
    specialize (Hlog InsertExpense). cbn [app] in Hlog.
    discriminate Hlog. do 3 right. left.
  - destruct H as (tr2 & Hins & Hs). rewrite Hs in Hlog.
    inversion Hins; subst; [eauto |].
    specialize (Hlog InsertExpense). cbn [app] in Hlog.
    discriminate Hlog. do 5 right. left.
  - destruct H as (_ & _ & Hs). rewrite Hs in Hlog.
    specialize (Hlog (InsertCategory (category expense) [subCategory expense])).
    discriminate Hlog. do 2 right. left.
Qed.

Lemma log_failures_do_not_fail_ingestion_witness :
  (forall c, (c, true) ∈ since logsFail (snd (insertExpense hay logsFail)) ->
             c = InsertErrorLog)
  /\ exists row, fst (insertExpense hay logsFail) = Ok row
                 /\ expenses (snd (insertExpense hay logsFail)) = [row].
Proof.
  assert (H : forall c,
             (c, true) ∈ since logsFail (snd (insertExpense hay logsFail)) ->
             c = InsertErrorLog).
  { intros c Hc. vm_compute in Hc.
    repeat (apply elem_of_cons in Hc as [Hc | Hc];
            [now inversion Hc |]).
    now apply elem_of_nil in Hc. }
  split; [exact H |].
  exact (log_failures_do_not_fail_ingestion hay logsFail _ _
           (surjective_pairing _) H).
Defined.

(** A stored expense always points at a category row: when
    [insertExpense] succeeds, the row it returns is the one appended to
    the expenses table, it carries the fields of the expense, and its
    [categoryId] is the id of a row of the categories table, which is
    either a row the lookup found, holding what the filter asked for,
    or the row the call appended, holding the category as JSON carries
    it. When the category of the expense is given, that row has the
    category of the expense as its name; for an expense without
    category the row appended has no name. *)
Theorem inserted_expense_references_its_category (expense : ExpenseRecord)
    (w w' : World) (row : ExpenseRow) :
  insertExpense expense w = (Ok row, w') ->
  expenses w' = expenses w ++ [row]
  /\ row = expenseData expense (row_categoryId row) (expenses_seq w + 1)
  /\ exists c, c ∈ categories w'
               /\ cat_id c = row_categoryId row
               /\ ((c ∈ categories w /\ categories w' = categories w
                    /\ cat_name c = sought (category expense))
                   \/ (categories w' = categories w ++ [c]
                       /\ cat_name c = json (category expense)))
               /\ (given (category expense) -> cat_name c = category expense).
Proof.
  intros H.
  apply insertExpense_effect in H as (r1 & w1 & tr1 & Hres & Hcat & H).
  destruct r1 as [categoryId | thrown];
    [| destruct H as (H & _); discriminate H].
  destruct H as (tr2 & Hins & _).
  inversion Hins as [f4 He Hrow |]; subst.
  split; [exact He |]. split; [reflexivity |]. cbn [row_categoryId expenseData].
  inversion Hres as [c f1 H0 Hl Hc | f0 f1 f3 Herr H2 Hc |]; subst.
  - exists c. rewrite Hcat, Hc.
    assert (Hin : c ∈ lookup expense w) by (rewrite Hl; left).
    apply list_elem_of_filter in Hin as [Hname Hin].
    split; [exact Hin |]. split; [reflexivity |].
    split; [left; auto |]. intros Hg. now rewrite Hname, sought_given.
  - exists (newCategory expense w). rewrite Hcat, Hc.
    split; [apply elem_of_app; right; left |]. split; [reflexivity |].
    split; [right; split; reflexivity |].
    intros Hg. cbn. now apply json_given.
Qed.

Lemma inserted_expense_references_its_category_witness :
  exists row c,
    fst (insertExpense hay emptyWorld) = Ok row
    /\ c ∈ categories (snd (insertExpense hay emptyWorld))
    /\ cat_id c = row_categoryId row /\ cat_name c = JStr "Feed".
Proof.
  assert (E : insertExpense hay emptyWorld
              = (Ok (expenseData hay 1 1), snd (insertExpense hay emptyWorld)))
    by (vm_compute; reflexivity).
  destruct (inserted_expense_references_its_category hay emptyWorld
              (snd (insertExpense hay emptyWorld))
              (expenseData hay 1 1) E) as (_ & _ & c & Hc & Hid & _ & Hn).
  exists (expenseData hay 1 1), c. rewrite E at 1.
  split; [reflexivity |]. split; [exact Hc |]. split; [exact Hid |].
  apply Hn. split; discriminate.
Defined.

(** The table holds a row named "Feed", and the next call fails. *)
Definition lookupFails : World :=
  {| categories := [{| cat_id := 1; cat_name := JStr "Feed";
                       cat_subCategories := [JStr "Hay"] |}];
     expenses := []; error_logs := [];
     categories_seq := 1; expenses_seq := 0;
     faults := [true]; calls := []; console := [] |}.

(** The resolver takes every error of the lookup for a miss: when the
    lookup call itself fails and the insert that follows succeeds, a new
    category row is appended and its id returned, whether or not the
    table already holds rows of that name. *)
Theorem failed_lookup_creates_category (expense : ExpenseRecord) (w : World) :
  fault 0 w = true -> fault 2 w = false ->
  exists w1,
    resolveCategory expense w = (Ok (categories_seq w + 1)%Z, w1)
    /\ categories w1 = categories w ++ [newCategory expense w].
Proof.
  intros H0 H2.
  destruct (resolveCategory expense w) as [r w1] eqn:E. exists w1.
  apply resolveCategory_effect in E as (_ & _ & tr & _ & _ & Hres).
  inversion Hres; subst; try congruence. auto.
Qed.

Lemma failed_lookup_creates_category_witness :
  map cat_name (categories (snd (resolveCategory hay lookupFails)))
  = [JStr "Feed"; JStr "Feed"]
  /\ fst (resolveCategory hay lookupFails) = Ok 2%Z.
Proof.
  destruct (failed_lookup_creates_category hay lookupFails eq_refl eq_refl)
    as (w1 & E & Hc).
  rewrite E. cbn [fst snd]. rewrite Hc. split; reflexivity.
Defined.

(** At most one row of every name. *)
Definition unique_names (w : World) : Prop :=
  forall n, (length (filter (fun r => cat_name r = n) (categories w)) <= 1)%nat.

(** An expense that names no category. *)
Definition uncategorized : ExpenseRecord :=
  {| id := JUndefined; date := JStr "2024-01-08"; type := JStr "Expense";
     description := JStr "Salt lick"; amount := num 3; paidBy := JStr "Asha";
     category := JUndefined; subCategory := JUndefined;
     source := JUndefined; notes := JUndefined |}.

(** On a store that answers its calls, the ingestion of an expense
    whose category is given keeps the categories table free of
    duplicate names: if no name has two rows before [insertExpense],
    none has afterwards. An expense without category breaks this: its
    lookup asks for the text "undefined" or "null", and as long as no
    row holds that text every ingestion appends one more row without a
    name. *)
Theorem ingestion_keeps_names_unique (expense : ExpenseRecord) (w : World) :
  available w -> unique_names w ->
  (given (category expense) ->
   unique_names (snd (insertExpense expense w)))
  /\ (~ given (category expense) -> lookup expense w = [] ->
      categories (snd (insertExpense expense w))
      = categories w
        ++ [{| cat_id := categories_seq w + 1; cat_name := JNull;
               cat_subCategories := [json (subCategory expense)] |}]
      /\ lookup expense (snd (insertExpense expense w)) = []).
Proof.
  intros Hav Huniq.
  destruct (insertExpense expense w) as [r w'] eqn:E. cbn [snd].
  apply insertExpense_effect in E as (r1 & w1 & tr1 & Hres & Hcat & _).
  split.
  - intros Hg n. rewrite Hcat.
    inversion Hres as [c f1 H0 Hl Hc | f0 f1 f3 Herr H2 Hc
                      | f0 f1 f3 Herr H2 Hc]; subst; rewrite Hc.
    + apply Huniq.
    + rewrite filter_app, length_app.
      assert (Hnil : lookup expense w = []).
      { destruct Herr as [Hfault | Hne].
        - rewrite (available_fault w 0 Hav) in Hfault. discriminate.
        - pose proof (Huniq (sought (category expense))) as Hlen.
          unfold lookup in *.
          destruct (filter _ (categories w)) as [| row [| row' rows]];
            [reflexivity | now destruct (Hne row) | cbn in Hlen; lia]. }
      unfold lookup in Hnil. rewrite (sought_given _ Hg) in Hnil.
      destruct (decide (n = category expense)) as [-> | Hn].
      * rewrite Hnil.
        rewrite filter_cons_True by (cbn; now apply json_given). cbn. lia.
      * rewrite filter_cons_False
          by (cbn; rewrite (json_given _ Hg); congruence).
        rewrite filter_nil. cbn [length]. specialize (Huniq n). lia.
    + apply Huniq.
  - intros Hg Hnil. unfold lookup in *. rewrite Hcat.
    assert (Hname : json (category expense) = JNull
                    /\ sought (category expense) <> JNull).
    { destruct (category expense) eqn:Ec; cbn;
        try (split; [reflexivity | discriminate]);
        destruct Hg; split; discriminate. }
    destruct Hname as [Hjson Hsought].
    inversion Hres as [c f1 H0 Hl Hc | f0 f1 f3 Herr H2 Hc
                      | f0 f1 f3 Herr H2 Hc]; subst.
    + unfold lookup in Hl. rewrite Hnil in Hl. discriminate Hl.
    + rewrite Hc. unfold newCategory. rewrite Hjson. split; [reflexivity |].
      rewrite filter_app, Hnil.
      rewrite filter_cons_False by (cbn; congruence). reflexivity.
    + rewrite (available_fault w 2 Hav) in H2. discriminate.
Qed.

Lemma ingestion_keeps_names_unique_witness :
  unique_names (snd (insertExpense hay emptyWorld))
  /\ map cat_name
       (categories (snd (insertExpense uncategorized
                           (snd (insertExpense uncategorized emptyWorld)))))
     = [JNull; JNull].
Proof.
  assert (Hav : available emptyWorld) by constructor.
  assert (Hu : unique_names emptyWorld) by (intros n; cbn; lia).
  split.
  - apply (ingestion_keeps_names_unique hay emptyWorld Hav Hu).
    split; discriminate.
  - assert (Hno : ~ given (category uncategorized))
      by (intros [H _]; now apply H).
    destruct (ingestion_keeps_names_unique uncategorized emptyWorld Hav Hu)
      as [_ H1].
    destruct (H1 Hno eq_refl) as [Hc1 Hl1].
    assert (Hav1 : available (snd (insertExpense uncategorized emptyWorld)))
      by (vm_compute; constructor).
    assert (Hu1 : unique_names (snd (insertExpense uncategorized emptyWorld))).
    { intros n. rewrite Hc1.
      change (categories emptyWorld) with (@nil CategoryRow). cbn [app].
      destruct (decide (JNull = n)).
      - rewrite filter_cons_True by (cbn; congruence). cbn. lia.
      - rewrite filter_cons_False by (cbn; congruence). cbn. lia. }
    destruct (ingestion_keeps_names_unique uncategorized _ Hav1 Hu1)
      as [_ H2].
    destruct (H2 Hno Hl1) as [Hc2 _].
    rewrite Hc2, Hc1. reflexivity.
Defined.

(** The category is created, then the insert of the expense fails. *)
Definition expenseInsertFails : World :=
  {| categories := []; expenses := []; error_logs := [];
     categories_seq := 0; expenses_seq := 0;
     faults := [false; false; false; false; false; true];
     calls := []; console := [] |}.

(** Ingestion is not atomic: when the insert of the expense fails after
    the category was created in the same call, the call throws and the
    expenses table is unchanged, but the new category row stays. *)
Theorem created_category_survives_failed_insert (expense : ExpenseRecord)
    (w w' : World) (e : StoreError) (name : jsval) (subCategories : list jsval) :
  insertExpense expense w = (Err (insertError e), w') ->
  (InsertCategory name subCategories, false) ∈ since w w' ->
  expenses w' = expenses w
  /\ categories w' = categories w ++ [newCategory expense w].
Proof.
  intros H Hin.
  apply insertExpense_effect in H as (r1 & w1 & tr1 & Hres & Hcat & H).
  destruct r1 as [categoryId | thrown];
    [| destruct H as (H & _); inversion Hres; subst; discriminate H].
  destruct H as (tr2 & Hins & Hs). rewrite Hs in Hin.
  inversion Hins as [| f4 f6 He]; subst.
  split; [exact He |]. rewrite Hcat.
  inversion Hres as [c f1 H0 Hl Hc | f0 f1 f3 Herr H2 Hc |]; subst.
  - trace_mem Hin.
  - exact Hc.
Qed.

Lemma created_category_survives_failed_insert_witness :
  fst (insertExpense hay expenseInsertFails) = Err (insertError Unavailable)
  /\ expenses (snd (insertExpense hay expenseInsertFails)) = []
  /\ map cat_name (categories (snd (insertExpense hay expenseInsertFails)))
     = [JStr "Feed"].
Proof.
  assert (Hin : (InsertCategory (JStr "Feed") [JUndefined], false)
                  ∈ since expenseInsertFails
                      (snd (insertExpense hay expenseInsertFails))).
  { vm_compute. apply list_elem_of_In. cbn. tauto. }
  assert (E : insertExpense hay expenseInsertFails
              = (Err (insertError Unavailable),
                 snd (insertExpense hay expenseInsertFails)))
    by (vm_compute; reflexivity).
  destruct (created_category_survives_failed_insert hay expenseInsertFails
              (snd (insertExpense hay expenseInsertFails)) Unavailable
              (JStr "Feed") [JUndefined] E Hin) as (He & Hc).
  split; [now rewrite E at 1 |]. split; [exact He |]. now rewrite Hc.
Defined.

(** [addExpense] answers 400, 201 or 500. It answers 400 exactly when a
    required field is falsy, and then the state is untouched; it answers
    201 with the stored row under the category name of the request, one
    row having been appended to the expenses table; it answers 500 with
    the expenses table as it was. *)
Theorem addExpense_outcomes (newExpense : ExpenseRecord) (w w' : World)
    (resp : Response) :
  addExpense newExpense w = (resp, w') ->
  let complete :=
    truthy (description newExpense) && truthy (amount newExpense)
    && truthy (category newExpense) in
  (complete = false
   /\ resp = {| status := 400; body := ErrorBody "Missing required fields" |}
   /\ w' = w)
  \/ (complete = true
      /\ exists row,
           expenses w' = expenses w ++ [row]
           /\ resp = {| status := 201;
                        body := ExpenseBody
                          {| id := num (row_id row);
                             date := row_date row;
                             type := row_type row;
                             description := row_description row;
                             amount := row_amount row;
                             paidBy := row_paidBy row;
                             category := category newExpense;
                             subCategory := row_subCategory row;
                             source := row_source row;
                             notes := row_notes row |} |})
  \/ (complete = true
      /\ resp = {| status := 500; body := ErrorBody "Failed to add expense" |}
      /\ expenses w' = expenses w).
Proof.
  intros H. cbv zeta. unfold addExpense in H.
  destruct (truthy (description newExpense)),
           (truthy (amount newExpense)),
           (truthy (category newExpense));
    cbn [negb orb andb] in *;
    try (left; revert H; unfold ret; intros [= <- <-]; auto; fail).
  right. unfold bind at 1 in H.
  destruct (insertExpense newExpense w) as [r w1] eqn:E.
  apply insertExpense_rows in E. destruct r as [row | thrown].
  - left. split; [reflexivity |]. exists row.
    revert H. unfold ret. intros [= <- <-]. auto.
  - right. split; [reflexivity |].
    revert H. run_store. intros [= <- <-]. auto.
Qed.

Lemma addExpense_outcomes_witness :
  status (fst (addExpense hay emptyWorld)) = 201%Z
  /\ length (expenses (snd (addExpense hay emptyWorld))) = 1%nat.
Proof.
  destruct (addExpense_outcomes hay emptyWorld _ _ (surjective_pairing _))
    as [(Hc & _) | [(_ & row & He & Hr) | (_ & Hr & _)]].
  - vm_compute in Hc. discriminate Hc.
  - rewrite Hr, He. split; reflexivity.
  - vm_compute in Hr. discriminate Hr.
Defined.

End ExpenseMore.

(** ** Bulk delete: the count reported and the rows removed *)

Module BulkDeleteMore.
Import ExpenseTypes Store Expenses StoreFacts ExpenseFacts.

Lemma filter_split_length {A} (P : A -> Prop) `{forall a, Decision (P a)}
    (l : list A) :
  (length (filter (fun a => ~ P a) l) + length (filter P l) = length l)%nat.
Proof.
  induction l as [| a l IH]; [reflexivity |].
  destruct (decide (P a)) as [HP | HP].
  - rewrite (filter_cons_True P), (filter_cons_False (fun a => ~ P a))
      by tauto.
    cbn [length]. lia.
  - rewrite (filter_cons_False P), (filter_cons_True (fun a => ~ P a))
      by tauto.
    cbn [length]. lia.
Qed.

(** Rows of distinct ids, of which those numbered in [ids] are fewer
    than [ids] is long. *)
Lemma selected_rows_bounded (ids : list Z) (rows : list ExpenseRow) :
  NoDup (map row_id rows) ->
  (length (filter (fun r => row_id r ∈ ids) rows) <= length ids)%nat.
Proof.
  intros Hnodup.
  rewrite <- (length_map row_id (filter _ rows)).
  apply submseteq_length, NoDup_submseteq.
  - apply (sublist_NoDup _ (map row_id rows)); [exact Hnodup |].
    apply fmap_sublist, sublist_filter.
  - intros x (r & -> & Hr)%list_elem_of_fmap.
    now apply list_elem_of_filter in Hr as [Hr _].
Qed.

(** The [deletedCount] of a bulk delete is an upper bound, not a
    count: when the stored expenses have distinct ids, a successful
    bulk delete removes at most [deletedCount] rows. *)
Theorem bulkDelete_removes_at_most_reported (ids : list string)
    (w w' : World) (message : string) (deletedCount : nat) :
  NoDup (map row_id (expenses w)) ->
  bulkDeleteExpenses (Some ids) w
  = ({| status := 200; body := DeleteBody message deletedCount |}, w') ->
  (length (expenses w') <= length (expenses w)
   /\ length (expenses w) <= length (expenses w') + deletedCount)%nat.
Proof.
  intros Hnodup. unfold bulkDeleteExpenses.
  destruct (length (numericIds ids) =? 0)%nat; [discriminate |].
  run_store. destruct (hd false (faults w)); [discriminate |].
  intros [= <- <- <-]. cbn [expenses remove_expenses record_call].
  pose proof (filter_split_length (fun r => row_id r ∈ numericIds ids)
                                  (expenses w)) as Hsplit.
  pose proof (selected_rows_bounded (numericIds ids) (expenses w) Hnodup).
  lia.
Qed.

Lemma bulkDelete_removes_at_most_reported_witness :
  (length (expenses threeExpenses)
   <= length (expenses (snd (bulkDeleteExpenses (Some ["2"; "2"; "40"])
                                                threeExpenses))) + 3)%nat.
Proof.
  assert (Hnodup : NoDup (map row_id (expenses threeExpenses))).
  { vm_compute. repeat constructor; rewrite ?elem_of_cons, ?elem_of_nil;
      intros H; repeat destruct H as [H | H]; try discriminate H; exact H. }
  assert (E : bulkDeleteExpenses (Some ["2"; "2"; "40"]) threeExpenses
              = ({| status := 200;
                    body := DeleteBody "Expenses deleted successfully" 3 |},
                 snd (bulkDeleteExpenses (Some ["2"; "2"; "40"]) threeExpenses)))
    by (vm_compute; reflexivity).
  exact (proj2 (bulkDelete_removes_at_most_reported _ _ _ _ _ Hnodup E)).
Defined.

End BulkDeleteMore.

(** ** Updating and deleting one expense *)

Module UpdateFacts.
Import ExpenseTypes Store Expenses ExpenseUpdates StoreFacts.

(** The table an update of the rows numbered [n] leaves. *)
Definition updatedRows (n : Z) (d : UpdateData) (rows : list ExpenseRow)
  : list ExpenseRow :=
  map (fun r => if decide (row_id r = n) then apply_update d r else r) rows.

Lemma updatedRows_ids (n : Z) (d : UpdateData) (rows : list ExpenseRow) :
  map row_id (updatedRows n d rows) = map row_id rows.
Proof.
  unfold updatedRows. rewrite map_map. apply map_ext. intros r.
  now destruct (decide (row_id r = n)).
Qed.

Lemma updatedRows_others (n : Z) (d : UpdateData) (rows : list ExpenseRow)
    (r : ExpenseRow) :
  row_id r <> n -> r ∈ updatedRows n d rows <-> r ∈ rows.
Proof.
  intros Hr. unfold updatedRows. rewrite list_elem_of_fmap. split.
  - intros (r0 & -> & Hin). destruct (decide (row_id r0 = n)) as [E | E];
      [now cbn in Hr | exact Hin].
  - intros Hin. exists r. split; [| exact Hin].
    now destruct (decide (row_id r = n)).
Qed.

Lemma updatedRows_absent (n : Z) (d : UpdateData) (rows : list ExpenseRow) :
  (forall r, r ∈ rows -> row_id r <> n) ->
  updatedRows n d rows = rows
  /\ filter (fun r => row_id r = n) (updatedRows n d rows) = [].
Proof.
  intros H. induction rows as [| r rows IH]; [split; reflexivity |].
  destruct IH as [IH1 IH2]; [intros r' Hr'; apply H; now right |].
  assert (Hr : row_id r <> n) by (apply H; left).
  unfold updatedRows in *. cbn [map].
  destruct (decide (row_id r = n)) as [E | _]; [contradiction |].
  rewrite filter_cons_False by exact Hr. rewrite IH1 in *. auto.
Qed.

(** Unfolds the requests of the update and delete handlers. *)
Ltac run_update :=
  unfold update_expense, delete_expense_eq, console_out,
    select_category_id, insert_category, bind, ret, next_fault.

(** What the second half of [updateExpense] does to the tables. *)
Lemma updateWith_tables (id : string) (updatedExpense : ExpenseRecord)
    (categoryId : option Z) (w : World) :
  categories (snd (updateWith id updatedExpense categoryId w)) = categories w
  /\ (expenses (snd (updateWith id updatedExpense categoryId w)) = expenses w
      \/ exists n d,
           parseInt id = Some n
           /\ expenses (snd (updateWith id updatedExpense categoryId w))
              = updatedRows n d (expenses w)).
Proof.
  unfold updateWith. run_update.
  destruct (parseInt id) as [n |]; [| split; [reflexivity | left; reflexivity]].
  destruct (hd false (faults w)); [split; [reflexivity | left; reflexivity] |].
  match goal with
  | |- context [filter ?P ?l] => destruct (filter P l) as [| row rest]
  end; (split; [reflexivity | right; eauto]).
Qed.

Ltac via_updateWith H :=
  match type of H with
  | updateWith ?i ?e ?c ?w1 = _ =>
      let T := fresh in
      destruct (updateWith_tables i e c w1) as [_ T];
      rewrite H in T; world_simpl_in T; exact T
  end.

(** What [updateExpense] does to the expenses table: nothing, or the
    update of the rows numbered by its parameter. *)
Lemma updateExpense_expenses (id : string) (updatedExpense : ExpenseRecord)
    (w w' : World) (resp : Response) :
  updateExpense id updatedExpense w = (resp, w') ->
  expenses w' = expenses w
  \/ exists n d, parseInt id = Some n
                 /\ expenses w' = updatedRows n d (expenses w).
Proof.
  unfold updateExpense. intros H.
  destruct (truthy (category updatedExpense)); [| via_updateWith H].
  unfold bind at 1, select_category_id, next_fault in H.
  destruct (hd false (faults w));
    [| destruct (filter _ (categories w)) as [| c [| c' cs]]];
    try via_updateWith H;
    unfold bind at 1, insert_category, next_fault in H;
    cbn [faults record_call] in H;
    (destruct (hd false (tail (faults w)));
     [revert H; run_update; intros [= <- <-]; left; reflexivity
     | via_updateWith H]).
Qed.

(** An update never adds, removes or renumbers a row, and it leaves
    every row alone whose id is not the one of the request: after
    [updateExpense] the expenses table holds the same ids in the same
    order, and a row of another id is in the table after the call
    exactly when it was before. *)
Theorem updateExpense_keeps_other_rows (id : string)
    (updatedExpense : ExpenseRecord) (w : World) :
  let w' := snd (updateExpense id updatedExpense w) in
  map row_id (expenses w') = map row_id (expenses w)
  /\ forall r, Some (row_id r) <> parseInt id ->
               r ∈ expenses w' <-> r ∈ expenses w.
Proof.
  intros w'. subst w'.
  destruct (updateExpense id updatedExpense w) as [resp w'] eqn:E.
  cbn [snd]. apply updateExpense_expenses in E.
  destruct E as [-> | (n & d & Hid & ->)]; [split; [reflexivity | tauto] |].
  split; [apply updatedRows_ids |].
  intros r Hr. apply updatedRows_others. rewrite Hid in Hr. congruence.
Qed.

(** The object [updateData] that [updateWith] sends. *)
Definition updateData (updatedExpense : ExpenseRecord) (categoryId : option Z)
  : UpdateData :=
  {| u_description := description updatedExpense;
     u_amount := amount updatedExpense;
     u_type := type updatedExpense;
     u_date := date updatedExpense;
     u_paidBy := paidBy updatedExpense;
     u_subCategory := subCategory updatedExpense;
     u_source := source updatedExpense;
     u_notes := notes updatedExpense;
     u_categoryId :=
       match categoryId with
       | Some c => if (c =? 0)%Z then None else Some c
       | None => None
       end |}.

Lemma updatedRows_matching (n : Z) (d : UpdateData) (rows : list ExpenseRow) :
  filter (fun r => row_id r = n) (updatedRows n d rows)
  = map (apply_update d) (filter (fun r => row_id r = n) rows).
Proof.
  unfold updatedRows. induction rows as [| r rows IH]; [reflexivity |].
  cbn [map]. destruct (decide (row_id r = n)) as [E | E].
  - rewrite !filter_cons_True by (cbn; exact E). cbn [map]. now rewrite IH.
  - rewrite !filter_cons_False by exact E. exact IH.
Qed.

(** The answer for the updated row [row] to a request [updatedExpense]. *)
Definition updatedBody (updatedExpense : ExpenseRecord) (row : ExpenseRow)
  : Response :=
  {| status := 200;
     body := ExpenseBody
       {| id := num (row_id row);
          date := patched (date updatedExpense) (row_date row);
          type := patched (type updatedExpense) (row_type row);
          description :=
            patched (description updatedExpense) (row_description row);
          amount := patched (amount updatedExpense) (row_amount row);
          paidBy := patched (paidBy updatedExpense) (row_paidBy row);
          category := or (category updatedExpense) JUndefined;
          subCategory :=
            patched (subCategory updatedExpense) (row_subCategory row);
          source := patched (source updatedExpense) (row_source row);
          notes := patched (notes updatedExpense) (row_notes row) |} |}.

(** The second half of [updateExpense] when the store answers. *)
Lemma updateWith_answered (id : string) (updatedExpense : ExpenseRecord)
    (categoryId : option Z) (w : World) (n : Z) :
  parseInt id = Some n -> fault 0 w = false ->
  let rows := updatedRows n (updateData updatedExpense categoryId) (expenses w) in
  updateWith id updatedExpense categoryId w
  = (match filter (fun r => row_id r = n) (expenses w) with
     | [] => {| status := 404; body := ErrorBody "Expense not found" |}
     | row :: _ => updatedBody updatedExpense row
     end,
     set_expenses rows (answered w)).
Proof.
  intros Hid Hf rows. unfold updateWith. run_update. rewrite Hid.
  change (hd false (faults w)) with (fault 0 w). rewrite Hf.
  fold (updateData updatedExpense categoryId).
  fold (updatedRows n (updateData updatedExpense categoryId) (expenses w)).
  rewrite updatedRows_matching.
  destruct (filter _ (expenses w)) as [| row rest]; reflexivity.
Qed.

Lemma json_or_string (v : jsval) (s : string) : json (or v (JStr s)) = or v (JStr s).
Proof.
  unfold or. destruct (truthy v) eqn:T; [| reflexivity].
  now destruct v.
Qed.

(** The category row [updateExpense] creates. *)
Definition createdCategory (updatedExpense : ExpenseRecord) (w : World)
  : CategoryRow :=
  {| cat_id := categories_seq w + 1;
     cat_name := category updatedExpense;
     cat_subCategories := [or (subCategory updatedExpense) (JStr "General")] |}.

(** The first half of [updateExpense] on a store that answers: the
    category is left out, found, or created, and the second half runs
    on a store that answers. *)
Lemma updateExpense_resolved (id : string) (updatedExpense : ExpenseRecord)
    (w : World) :
  available w ->
  exists categoryId w1,
    updateExpense id updatedExpense w
    = updateWith id updatedExpense categoryId w1
    /\ expenses w1 = expenses w
    /\ available w1
    /\ ((truthy (category updatedExpense) = false
         /\ categoryId = None /\ categories w1 = categories w)
        \/ (truthy (category updatedExpense) = true
            /\ (exists c, filter (fun r => cat_name r = category updatedExpense)
                                 (categories w) = [c]
                          /\ categoryId = Some (cat_id c))
            /\ categories w1 = categories w)
        \/ (truthy (category updatedExpense) = true
            /\ length (filter (fun r => cat_name r = category updatedExpense)
                              (categories w)) <> 1%nat
            /\ categoryId = Some (categories_seq w + 1)%Z
            /\ categories w1
               = categories w ++ [createdCategory updatedExpense w])).
Proof.
  intros Hav. unfold updateExpense.
  pose proof (available_fault w 0 Hav) as H0.
  pose proof (available_fault w 1 Hav) as H1.
  change (fault 0 w) with (hd false (faults w)) in H0.
  change (fault 1 w) with (hd false (tail (faults w))) in H1.
  destruct (truthy (category updatedExpense)) eqn:T.
  2: { exists None, w. repeat split; auto. }
  unfold bind at 1, select_category_id, next_fault. rewrite H0.
  rewrite (sought_given _ (truthy_given _ T)).
  destruct (filter _ (categories w)) as [| c [| c' cs]] eqn:F.
  2: { eexists _, _. split; [reflexivity |]. split; [reflexivity |].
       split; [eapply (ExpenseFacts.available_drop w _ 1); [exact Hav | reflexivity] |].
       right. left. split; [reflexivity |]. split; [eauto | reflexivity]. }
  all: unfold bind at 1, insert_category, next_fault;
    cbn [faults record_call]; rewrite H1;
    eexists _, _; (split; [reflexivity |]); (split; [reflexivity |]);
    (split; [eapply (ExpenseFacts.available_drop w _ 2);
               [exact Hav | cbn [faults add_category record_call];
                            rewrite !tail_as_drop, drop_drop; reflexivity] |]);
    right; right; (split; [reflexivity |]); (split; [cbn; lia |]);
    (split; [reflexivity |]);
    cbn [categories add_category record_call map]; rewrite json_or_string;
    rewrite (json_given _ (truthy_given _ T)); reflexivity.
Qed.

(** A store where nothing is scheduled to fail and that holds the
    expense 7 under the category 1. *)
Definition oneExpense : World :=
  {| categories := [{| cat_id := 1; cat_name := JStr "Feed";
                       cat_subCategories := [JStr "Hay"] |}];
     expenses := [{| row_id := 7; row_description := JStr "Hay";
                     row_amount := num 12; row_type := JStr "expense";
                     row_date := JStr "2024-01-05"; row_paidBy := JStr "Asha";
                     row_categoryId := 1; row_subCategory := JStr "Hay";
                     row_source := JNull; row_notes := JNull |}];
     error_logs := []; categories_seq := 1; expenses_seq := 7;
     faults := []; calls := []; console := [] |}.

(** A request that names a new amount and a category not yet stored. *)
Definition newAmount : ExpenseRecord :=
  {| id := JUndefined; date := JUndefined; type := JUndefined;
     description := JUndefined; amount := num 15; paidBy := JUndefined;
     category := JStr "Bedding"; subCategory := JUndefined;
     source := JUndefined; notes := JUndefined |}.

(** An update of an id that no row carries answers 404 "Expense not
    found" and leaves the expenses table as it was, on a store that
    answers its calls. *)
Theorem updateExpense_unknown_id (id : string) (updatedExpense : ExpenseRecord)
    (w : World) (n : Z) :
  available w -> parseInt id = Some n ->
  (forall r, r ∈ expenses w -> row_id r <> n) ->
  fst (updateExpense id updatedExpense w)
  = {| status := 404; body := ErrorBody "Expense not found" |}
  /\ expenses (snd (updateExpense id updatedExpense w)) = expenses w.
Proof.
  intros Hav Hid Habsent.
  destruct (updateExpense_resolved id updatedExpense w Hav)
    as (c & w1 & -> & He & Hav1 & _).
  rewrite (updateWith_answered id updatedExpense c w1 n Hid
             (available_fault w1 0 Hav1)).
  cbn [fst snd]. rewrite He.
  destruct (updatedRows_absent n (updateData updatedExpense c) (expenses w)
              Habsent) as [Hrows _].
  cbn [expenses set_expenses]. rewrite Hrows. split; [| reflexivity].
  destruct (filter _ (expenses w)) as [| r rest] eqn:F; [reflexivity |].
  assert (Hin : r ∈ filter (fun r => row_id r = n) (expenses w))
    by (rewrite F; left).
  apply list_elem_of_filter in Hin as [Hr Hin]. now destruct (Habsent r Hin).
Qed.

Lemma updateExpense_unknown_id_witness :
  status (fst (updateExpense "8" newAmount oneExpense)) = 404%Z
  /\ expenses (snd (updateExpense "8" newAmount oneExpense))
     = expenses oneExpense.
Proof.
  destruct (updateExpense_unknown_id "8" newAmount oneExpense 8) as [Hr He].
  - constructor.
  - reflexivity.
  - intros r Hr. apply list_elem_of_singleton in Hr as ->. discriminate.
  - rewrite Hr. split; [reflexivity | exact He].
Defined.

(** When the category of the request has no row, [updateExpense]
    creates it before it looks at the expense, with the sub-category of
    the request, or "General" for want of one, as its only sub-category;
    the row is created whatever becomes of the update itself, so also
    when the answer is 404. *)
Theorem updateExpense_creates_category (id : string)
    (updatedExpense : ExpenseRecord) (w : World) :
  available w -> truthy (category updatedExpense) = true ->
  filter (fun r => cat_name r = category updatedExpense) (categories w) = [] ->
  categories (snd (updateExpense id updatedExpense w))
  = categories w
    ++ [{| cat_id := categories_seq w + 1;
           cat_name := category updatedExpense;
           cat_subCategories :=
             [if truthy (subCategory updatedExpense)
              then subCategory updatedExpense else JStr "General"] |}].
Proof.
  intros Hav T F.
  destruct (updateExpense_resolved id updatedExpense w Hav)
    as (c & w1 & -> & _ & _ & [(T' & _) | [(_ & (c0 & F' & _) & _)
                                          | (_ & _ & _ & Hc)]]);
    [congruence | congruence |].
  destruct (updateWith_tables id updatedExpense c w1) as [-> _]. exact Hc.
Qed.

Lemma updateExpense_creates_category_witness :
  fst (updateExpense "8" newAmount oneExpense)
  = {| status := 404; body := ErrorBody "Expense not found" |}
  /\ map cat_name (categories (snd (updateExpense "8" newAmount oneExpense)))
     = [JStr "Feed"; JStr "Bedding"]
  /\ map cat_subCategories
       (categories (snd (updateExpense "8" newAmount oneExpense)))
     = [[JStr "Hay"]; [JStr "General"]].
Proof.
  assert (Hav : available oneExpense) by constructor.
  rewrite (updateExpense_creates_category "8" newAmount oneExpense Hav
             eq_refl eq_refl).
  repeat split; reflexivity.
Defined.

(** When the category cannot be created, [updateExpense] answers 500
    "Failed to create category" and sends no update: both tables are as
    they were. *)
Theorem updateExpense_creation_failure (id : string)
    (updatedExpense : ExpenseRecord) (w : World) :
  truthy (category updatedExpense) = true ->
  fault 0 w = true
  \/ length (filter (fun r => cat_name r = category updatedExpense)
                    (categories w)) <> 1%nat ->
  fault 1 w = true ->
  fst (updateExpense id updatedExpense w)
  = {| status := 500; body := ErrorBody "Failed to create category" |}
  /\ expenses (snd (updateExpense id updatedExpense w)) = expenses w
  /\ categories (snd (updateExpense id updatedExpense w)) = categories w.
Proof.
  intros T Hmiss H1.
  destruct (updateExpense id updatedExpense w) as [resp w'] eqn:E.
  cbn [fst snd]. revert E. unfold updateExpense. rewrite T.
  change (fault 1 w) with (hd false (tail (faults w))) in H1.
  unfold bind at 1, select_category_id, next_fault.
  rewrite (sought_given _ (truthy_given _ T)).
  assert (Hgo : forall found : Result StoreError Z,
             (if hd false (faults w) then Err Unavailable
              else match filter (fun r => cat_name r = category updatedExpense)
                                (categories w) with
                   | [r] => Ok (cat_id r)
                   | _ => Err PGRST116
                   end) = found ->
             exists e, found = Err e).
  { intros found <-. destruct Hmiss as [H0 | Hlen].
    - change (fault 0 w) with (hd false (faults w)) in H0. rewrite H0. eauto.
    - destruct (hd false (faults w)); [eauto |].
      destruct (filter _ (categories w)) as [| c [| c' cs]]; eauto.
      now cbn in Hlen. }
  destruct (Hgo _ eq_refl) as [e ->].
  run_update. cbn [faults record_call]. rewrite H1.
  intros [= <- <-]. repeat split.
Qed.

(** The lookup is answered, the insert of the category fails. *)
Definition creationRefused : World :=
  {| categories := categories oneExpense; expenses := expenses oneExpense;
     error_logs := []; categories_seq := 1; expenses_seq := 7;
     faults := [false; true]; calls := []; console := [] |}.

Lemma updateExpense_creation_failure_witness :
  fst (updateExpense "7" newAmount creationRefused)
  = {| status := 500; body := ErrorBody "Failed to create category" |}
  /\ expenses (snd (updateExpense "7" newAmount creationRefused))
     = expenses oneExpense.
Proof.
  destruct (updateExpense_creation_failure "7" newAmount creationRefused)
    as (Hr & He & _).
  - reflexivity.
  - right. vm_compute. lia.
  - reflexivity.
  - split; [exact Hr | exact He].
Defined.




(** A request without a category leaves the categories table and the
    category of every expense as they were. *)
Theorem updateExpense_without_category (id : string)
    (updatedExpense : ExpenseRecord) (w : World) :
  truthy (category updatedExpense) = false ->
  categories (snd (updateExpense id updatedExpense w)) = categories w
  /\ map row_categoryId (expenses (snd (updateExpense id updatedExpense w)))
     = map row_categoryId (expenses w).
Proof.
  intros T. unfold updateExpense. rewrite T.
  destruct (updateWith_tables id updatedExpense None w) as [Hc _].
  split; [exact Hc |].
  unfold updateWith. run_update.
  destruct (parseInt id) as [n |]; [| reflexivity].
  destruct (hd false (faults w)); [reflexivity |].
  match goal with
  | |- context [filter ?P ?l] => destruct (filter P l) as [| row rest]
  end; cbn [snd expenses set_expenses]; rewrite map_map; apply map_ext;
    intros r; now destruct (decide (row_id r = n)).
Qed.

Lemma updateExpense_without_category_witness :
  map row_categoryId
    (expenses
       (snd (updateExpense "7"
               {| id := JUndefined; date := JUndefined; type := JUndefined;
                  description := JStr "Straw"; amount := JUndefined;
                  paidBy := JUndefined; category := JUndefined;
                  subCategory := JUndefined; source := JUndefined;
                  notes := JUndefined |} oneExpense)))
  = [1%Z].
Proof.
  destruct (updateExpense_without_category "7"
              {| id := JUndefined; date := JUndefined; type := JUndefined;
                 description := JStr "Straw"; amount := JUndefined;
                 paidBy := JUndefined; category := JUndefined;
                 subCategory := JUndefined; source := JUndefined;
                 notes := JUndefined |} oneExpense eq_refl) as [_ H].
  exact H.
Defined.

(** *** Deleting one expense *)

(** [deleteExpense] answers 200 or 500, never 404: the delete is sent
    without asking for the row back, so the store has no way to say
    that no row matched. With 200 the rows of the parsed id are gone and
    every other row is kept; with 500 the table is as it was. *)
Theorem deleteExpense_outcomes (id : string) (w w' : World) (a : Answer) :
  deleteExpense id w = (a, w') ->
  (a = Message 200 "Expense deleted successfully"
   /\ exists n, parseInt id = Some n
                /\ expenses w' = filter (fun r => row_id r <> n) (expenses w))
  \/ (a = Failure 500 "Failed to delete expense"
      /\ expenses w' = expenses w).
Proof.
  unfold deleteExpense. run_update.
  destruct (parseInt id) as [n |]; [| intros [= <- <-]; right; split; reflexivity].
  destruct (hd false (faults w)); intros [= <- <-];
    [right; split; reflexivity | left].
  split; [reflexivity |]. exists n. split; [reflexivity |].
  cbn [expenses remove_expenses answered].
  apply list_filter_iff. intros r. rewrite list_elem_of_singleton. tauto.
Qed.

Lemma deleteExpense_outcomes_witness :
  fst (deleteExpense "7" oneExpense) = Message 200 "Expense deleted successfully"
  /\ expenses (snd (deleteExpense "7" oneExpense)) = [].
Proof.
  destruct (deleteExpense_outcomes "7" oneExpense _ _ (surjective_pairing _))
    as [(-> & n & Hn & ->) | (Ha & _)].
  - injection Hn as <-. split; reflexivity.
  - vm_compute in Ha. discriminate Ha.
Defined.

(** Deleting an id that no row carries is answered as a success, and
    nothing is removed; [updateExpense] answers 404 to the same id. *)
Theorem deleteExpense_unknown_id (id : string) (w : World) (n : Z) :
  parseInt id = Some n -> fault 0 w = false ->
  (forall r, r ∈ expenses w -> row_id r <> n) ->
  fst (deleteExpense id w) = Message 200 "Expense deleted successfully"
  /\ expenses (snd (deleteExpense id w)) = expenses w.
Proof.
  intros Hid Hf Habsent. unfold deleteExpense. run_update. rewrite Hid.
  change (hd false (faults w)) with (fault 0 w). rewrite Hf.
  split; [reflexivity |]. cbn [snd expenses remove_expenses answered].
  induction (expenses w) as [| r rows IH]; [reflexivity |].
  rewrite filter_cons_True.
  - f_equal. apply IH. intros r' Hr'. apply Habsent. now right.
  - rewrite list_elem_of_singleton. apply Habsent. left.
Qed.

Lemma deleteExpense_unknown_id_witness :
  fst (deleteExpense "8" oneExpense) = Message 200 "Expense deleted successfully"
  /\ expenses (snd (deleteExpense "8" oneExpense)) = expenses oneExpense.
Proof.
  apply (deleteExpense_unknown_id "8" oneExpense 8); [reflexivity .. |].
  intros r Hr. apply list_elem_of_singleton in Hr as ->. discriminate.
Defined.

End UpdateFacts.

(** ** Category management *)

Module CategoryFacts.
Import Store ExpenseUpdates Categories StoreFacts.

(** Unfolds the requests of the category routes. *)
Ltac run_categories :=
  unfold select_categories, delete_categories_gte, insert_categories,
    console_out, bind, ret, next_fault.

(** The rows [writeCategories] asks the store to insert. *)
Definition categoriesToInsert (data : list CategoryConfig)
  : list (jsval * list jsval) :=
  map (fun cat => (name cat, default [] (subCategories cat))) data.

Lemma rowsToInsert_records (data : list CategoryConfig) :
  rowsToInsert (map Some data) = Some (categoriesToInsert data).
Proof.
  induction data as [| cat data IH]; [reflexivity |].
  cbn [map rowsToInsert]. now rewrite IH.
Qed.

Lemma numbered_length (seq : Z) (rows : list (jsval * list jsval)) :
  length (numbered seq rows) = length rows.
Proof.
  revert seq. induction rows as [| [n subs] rows IH]; intros seq;
    [reflexivity |].
  cbn [numbered length]. now rewrite IH.
Qed.

(** Rows numbered by the store are in the order of their ids. *)
Lemma sort_numbered (seq : Z) (rows : list (jsval * list jsval)) :
  Animals.sort byIdAscending (numbered seq rows) = numbered seq rows.
Proof.
  revert seq. induction rows as [| [n subs] rows IH]; intros seq;
    [reflexivity |].
  cbn [numbered Animals.sort]. rewrite IH.
  destruct rows as [| [n' subs'] rows']; [reflexivity |].
  cbn [numbered Animals.insert]. unfold byIdAscending at 1. cbn [cat_id].
  now replace (seq + 1 - (seq + 1 + 1) <=? 0)%Z with true
    by (symmetry; apply Z.leb_le; lia).
Qed.

Lemma numbered_names (seq : Z) (rows : list (jsval * list jsval)) :
  map cat_name (numbered seq rows) = map (fun r => json (fst r)) rows
  /\ map cat_subCategories (numbered seq rows)
     = map (fun r => map json (snd r)) rows.
Proof.
  revert seq. induction rows as [| [n subs] rows IH]; intros seq;
    [split; reflexivity |].
  destruct (IH (seq + 1)%Z) as [IH1 IH2].
  cbn [numbered map fst snd cat_name cat_subCategories].
  now rewrite IH1, IH2.
Qed.

Lemma numbered_ids (start : Z) (rows : list (jsval * list jsval)) :
  map cat_id (numbered start rows)
  = map (fun i => (start + 1 + Z.of_nat i)%Z) (seq 0 (length rows)).
Proof.
  revert start. induction rows as [| [n subs] rows IH]; intros start;
    [reflexivity |].
  cbn [numbered map cat_id length List.seq]. f_equal; [lia |].
  rewrite IH, <- seq_shift, map_map. apply map_ext. intros i. lia.
Qed.

Lemma filter_none {A} (P : A -> Prop) `{forall a, Decision (P a)} (l : list A) :
  Forall (fun a => ~ P a) l -> filter P l = [].
Proof.
  induction 1 as [| a l Ha _ IH]; [reflexivity |].
  now rewrite filter_cons_False.
Qed.

(** What [writeCategories] leaves in the table when both of its
    requests are answered. *)
Lemma writeCategories_answered (data : list CategoryConfig) (w : World) :
  fault 0 w = false -> fault 1 w = false ->
  Forall (fun r => (0 <= cat_id r)%Z) (categories w) ->
  exists w',
    writeCategories (map Some data) w = (Ok tt, w')
    /\ categories w' = numbered (categories_seq w) (categoriesToInsert data)
    /\ faults w' = (if (0 <? length data)%nat then drop 2 (faults w)
                    else drop 1 (faults w)).
Proof.
  intros H0 H1 Hids.
  change (fault 0 w) with (hd false (faults w)) in H0.
  change (fault 1 w) with (hd false (tail (faults w))) in H1.
  unfold writeCategories. rewrite rowsToInsert_records, length_map.
  run_categories. rewrite H0.
  rewrite (filter_none (fun r => (cat_id r < 0)%Z))
    by (eapply Forall_impl; [exact Hids | cbn; intros; lia]).
  destruct data as [| cat data]; cbn [length Nat.ltb Nat.leb].
  - eexists. split; [reflexivity |]. split; reflexivity.
  - cbn [faults answered set_categories]. rewrite H1.
    eexists. split; [reflexivity |]. split; [reflexivity |].
    cbn [faults answered set_categories].
    now rewrite !tail_as_drop, drop_drop.
Qed.

(** A table with two categories, numbered 3 and 4. *)
Definition twoCategories : World :=
  {| categories := [{| cat_id := 3; cat_name := JStr "Feed";
                       cat_subCategories := [JStr "Hay"] |};
                    {| cat_id := 4; cat_name := JStr "Labour";
                       cat_subCategories := [] |}];
     expenses := []; error_logs := [];
     categories_seq := 4; expenses_seq := 0;
     faults := []; calls := []; console := [] |}.

(** What a client sends to replace them: its own ids, one category
    without sub-categories. *)
Definition replacement : list CategoryConfig :=
  [ {| id := JStr "1"; name := JStr "Medicine";
       subCategories := Some [JStr "Vaccines"; JStr "Deworming"] |};
    {| id := JStr "2"; name := JStr "Feed"; subCategories := None |} ].

(** Saving and reading back: on a store that answers its calls and
    numbers its rows from 0 up, [saveCategories] answers 200 and
    [readCategories] then returns the categories saved, in the order
    they were sent, each with its name and its sub-categories (none
    when it had none). The ids sent are not kept: the categories come
    back numbered on from the sequence of the table. *)
Theorem saved_categories_read_back (data : list CategoryConfig) (w : World) :
  available w ->
  Forall (fun r => (0 <= cat_id r)%Z) (categories w) ->
  let saved := saveCategories (Some (map Some data)) w in
  let read := fst (readCategories (snd saved)) in
  fst saved = Message 200 "Categories saved successfully"
  /\ map name read = map (fun cat => json (name cat)) data
  /\ map subCategories read
     = map (fun cat => Some (map json (default [] (subCategories cat)))) data
  /\ map id read
     = map (fun i => num (categories_seq w + 1 + Z.of_nat i))
           (seq 0 (length data)).
Proof.
  intros Hav Hids saved read. subst read saved.
  destruct (writeCategories_answered data w (available_fault w 0 Hav)
              (available_fault w 1 Hav) Hids) as (w' & Hw & Hc & Hf).
  unfold saveCategories. unfold bind at 1 3 5 7. rewrite Hw.
  cbn [fst snd ret]. split; [reflexivity |].
  assert (Hav' : available w').
  { destruct (0 <? length data)%nat;
      eapply ExpenseFacts.available_drop; eauto. }
  unfold readCategories. run_categories.
  pose proof (available_fault w' 0 Hav') as H0.
  change (fault 0 w') with (hd false (faults w')) in H0. rewrite H0.
  cbn [fst snd]. rewrite Hc, sort_numbered, !map_map. cbn [id name subCategories].
  destruct (numbered_names (categories_seq w) (categoriesToInsert data))
    as [Hn Hs].
  pose proof (numbered_ids (categories_seq w) (categoriesToInsert data)) as Hi.
  unfold categoriesToInsert in *. rewrite map_map in Hn, Hs.
  rewrite length_map in Hi. cbn [fst snd] in Hn, Hs.
  split; [exact Hn |]. split.
  - rewrite <- (map_map cat_subCategories Some), Hs, map_map. reflexivity.
  - rewrite <- (map_map cat_id num), Hi, map_map. reflexivity.
Qed.

Lemma saved_categories_read_back_witness :
  map name (fst (readCategories (snd (saveCategories (Some (map Some replacement))
                                                     twoCategories))))
  = [JStr "Medicine"; JStr "Feed"]
  /\ map id (fst (readCategories (snd (saveCategories (Some (map Some replacement))
                                                      twoCategories))))
     = [num 5; num 6].
Proof.
  assert (Hav : available twoCategories) by constructor.
  assert (Hids : Forall (fun r => (0 <= cat_id r)%Z) (categories twoCategories))
    by (repeat constructor; cbn; lia).
  destruct (saved_categories_read_back replacement twoCategories Hav Hids)
    as (_ & Hn & _ & Hi).
  split; [exact Hn | exact Hi].
Defined.

(** The save is not atomic: when the table has been cleared and the
    insert of the new categories then fails, [saveCategories] answers
    500 and the table is left empty. *)
Theorem failed_save_loses_categories (data : list CategoryConfig) (w : World) :
  data <> [] -> fault 0 w = false -> fault 1 w = true ->
  Forall (fun r => (0 <= cat_id r)%Z) (categories w) ->
  fst (saveCategories (Some (map Some data)) w) = Failure 500 "Failed to save categories"
  /\ categories (snd (saveCategories (Some (map Some data)) w)) = [].
Proof.
  intros Hne H0 H1 Hids.
  change (fault 0 w) with (hd false (faults w)) in H0.
  change (fault 1 w) with (hd false (tail (faults w))) in H1.
  unfold saveCategories, writeCategories.
  rewrite rowsToInsert_records, length_map. run_categories. rewrite H0.
  rewrite (filter_none (fun r => (cat_id r < 0)%Z))
    by (eapply Forall_impl; [exact Hids | cbn; intros; lia]).
  destruct data as [| cat data]; [congruence |].
  cbn [length Nat.ltb Nat.leb faults answered set_categories]. rewrite H1.
  split; reflexivity.
Qed.

(** The delete is answered, the insert is not. *)
Definition insertRefused : World :=
  {| categories := categories twoCategories; expenses := []; error_logs := [];
     categories_seq := 4; expenses_seq := 0;
     faults := [false; true]; calls := []; console := [] |}.

Lemma failed_save_loses_categories_witness :
  fst (saveCategories (Some (map Some replacement)) insertRefused)
  = Failure 500 "Failed to save categories"
  /\ categories (snd (saveCategories (Some (map Some replacement)) insertRefused)) = [].
Proof.
  apply (failed_save_loses_categories replacement insertRefused);
    [discriminate | reflexivity | reflexivity |].
  repeat constructor; cbn; lia.
Defined.

(** [writeCategories] does not look at the answer of its delete: when
    the delete fails and the insert is answered (or there is nothing to
    insert), [saveCategories] answers 200 although the old categories
    are all still there, followed by the new ones. *)
Theorem failed_clear_reported_as_saved (data : list CategoryConfig) (w : World) :
  fault 0 w = true -> data = [] \/ fault 1 w = false ->
  fst (saveCategories (Some (map Some data)) w) = Message 200 "Categories saved successfully"
  /\ categories (snd (saveCategories (Some (map Some data)) w))
     = categories w ++ numbered (categories_seq w) (categoriesToInsert data).
Proof.
  intros H0 H1.
  change (fault 0 w) with (hd false (faults w)) in H0.
  change (fault 1 w) with (hd false (tail (faults w))) in H1.
  unfold saveCategories, writeCategories.
  rewrite rowsToInsert_records, length_map. run_categories. rewrite H0.
  destruct data as [| cat data]; cbn [length Nat.ltb Nat.leb].
  - cbn. now rewrite app_nil_r.
  - destruct H1 as [H1 | H1]; [discriminate |].
    cbn [faults answered]. rewrite H1. split; reflexivity.
Qed.

(** The delete is not answered, the insert is. *)
Definition clearRefused : World :=
  {| categories := categories twoCategories; expenses := []; error_logs := [];
     categories_seq := 4; expenses_seq := 0;
     faults := [true]; calls := []; console := [] |}.

Lemma failed_clear_reported_as_saved_witness :
  fst (saveCategories (Some (map Some replacement)) clearRefused)
  = Message 200 "Categories saved successfully"
  /\ map cat_name (categories (snd (saveCategories (Some (map Some replacement))
                                                   clearRefused)))
     = [JStr "Feed"; JStr "Labour"; JStr "Medicine"; JStr "Feed"].
Proof.
  destruct (failed_clear_reported_as_saved replacement clearRefused eq_refl
              (or_intror eq_refl)) as [Ha Hc].
  split; [exact Ha |]. rewrite Hc. reflexivity.
Defined.

End CategoryFacts.

(** ** The dashboard summary: counts and weights *)

Module AnimalMore.
Import AnimalTypes Animals AnimalFacts.

Local Instance WeightRecord_eq_dec : EqDecision WeightRecord.
Proof. solve_decision. Defined.

Lemma filter_two_length {A} (P Q : A -> Prop)
    `{forall a, Decision (P a)} `{forall a, Decision (Q a)} (l : list A) :
  (forall a, P a -> Q a -> False) ->
  (length (filter P l) + length (filter Q l)
   = length (filter (fun a => P a \/ Q a) l))%nat.
Proof.
  intros Hdisj. induction l as [| a l IH]; [reflexivity |].
  destruct (decide (P a)) as [HP | HP], (decide (Q a)) as [HQ | HQ].
  - destruct (Hdisj a HP HQ).
  - rewrite (filter_cons_True P), (filter_cons_False Q),
      (filter_cons_True (fun a => P a \/ Q a)) by tauto.
    cbn [length]. lia.
  - rewrite (filter_cons_False P), (filter_cons_True Q),
      (filter_cons_True (fun a => P a \/ Q a)) by tauto.
    cbn [length]. lia.
  - rewrite (filter_cons_False P), (filter_cons_False Q),
      (filter_cons_False (fun a => P a \/ Q a)) by tauto.
    exact IH.
Qed.

Lemma filter_all_length {A} (P : A -> Prop) `{forall a, Decision (P a)}
    (l : list A) :
  (length (filter P l) <= length l)%nat
  /\ (length (filter P l) = length l <-> Forall P l).
Proof.
  induction l as [| a l [IH1 IH2]]; [split; [reflexivity | now split] |].
  destruct (decide (P a)) as [HP | HP].
  - rewrite filter_cons_True by exact HP. cbn [length].
    split; [lia |]. split.
    + intros [= Hlen]. constructor; [exact HP | now apply IH2].
    + intros Hall. inversion Hall; subst. f_equal. now apply IH2.
  - rewrite filter_cons_False by exact HP. cbn [length].
    split; [lia |]. split; [lia |]. intros Hall. now inversion Hall.
Qed.

(** The counts of the summary partition the herd only as far as the
    values the handler tests for: the four status counts, the two type
    counts and the two gender counts each add up to at most
    [totalAnimals], and the status counts add up to it exactly when
    every animal has one of the four statuses. *)
Theorem counts_within_total (getTime : string -> Z)
    (animals : list AnimalRecord) (weightRecords : list WeightRecord) :
  let summary := getAnimalSummary getTime animals weightRecords in
  (totalGoats summary + totalSheep summary <= totalAnimals summary)%nat
  /\ (totalMales summary + totalFemales summary <= totalAnimals summary)%nat
  /\ (activeAnimals summary + soldAnimals summary + readyToSell summary
      + deadAnimals summary <= totalAnimals summary)%nat
  /\ ((activeAnimals summary + soldAnimals summary + readyToSell summary
       + deadAnimals summary = totalAnimals summary)%nat
      <-> Forall (fun a => status a = "active" \/ status a = "sold"
                           \/ status a = "ready_to_sell" \/ status a = "dead")
                 animals).
Proof.
  intros summary. subst summary. unfold getAnimalSummary.
  cbn [totalAnimals totalGoats totalSheep totalMales totalFemales
       activeAnimals soldAnimals readyToSell deadAnimals].
  split; [| split].
  - rewrite (filter_two_length (fun a => type a = "goat")
                               (fun a => type a = "sheep"))
      by (intros a -> [=]).
    apply filter_all_length.
  - rewrite (filter_two_length (fun a => gender a = "male")
                               (fun a => gender a = "female"))
      by (intros a -> [=]).
    apply filter_all_length.
  - assert (E : (length (filter (fun a => status a = "active") animals)
                 + length (filter (fun a => status a = "sold") animals)
                 + length (filter (fun a => status a = "ready_to_sell") animals)
                 + length (filter (fun a => status a = "dead") animals)
                 = length (filter (fun a => status a = "active"
                                            \/ status a = "sold"
                                            \/ status a = "ready_to_sell"
                                            \/ status a = "dead") animals))%nat).
    { rewrite <- (filter_two_length (fun a => status a = "active"))
        by (intros a -> [[=] | [[=] | [=]]]).
      rewrite <- (filter_two_length (fun a => status a = "sold"))
        by (intros a -> [[=] | [=]]).
      rewrite <- (filter_two_length (fun a => status a = "ready_to_sell"))
        by (intros a -> [=]).
      lia. }
    rewrite E. apply filter_all_length.
Qed.

(** A weight record that belongs to no animal of the herd has no
    influence on the summary. *)
Theorem foreign_weight_record_ignored (getTime : string -> Z)
    (animals : list AnimalRecord) (before after : list WeightRecord)
    (r : WeightRecord) :
  (forall a, a ∈ animals -> animalId r <> id a) ->
  getAnimalSummary getTime animals (before ++ r :: after)
  = getAnimalSummary getTime animals (before ++ after).
Proof.
  intros Hforeign.
  assert (E : map (latestWeight getTime (before ++ r :: after)) animals
              = map (latestWeight getTime (before ++ after)) animals).
  { apply map_ext_in. intros a Ha%list_elem_of_In. unfold latestWeight.
    rewrite !filter_app, filter_cons_False by (now apply Hforeign).
    reflexivity. }
  unfold getAnimalSummary, animalWeights. now rewrite E.
Qed.

Lemma foreign_weight_record_ignored_witness :
  getAnimalSummary timeOf herd
    ({| animalId := "9"; weight := 80%Q; date := "2024-03-01" |} :: herdWeights)
  = getAnimalSummary timeOf herd herdWeights.
Proof.
  apply (foreign_weight_record_ignored timeOf herd []).
  intros a Ha. unfold herd in Ha.
  repeat (apply elem_of_cons in Ha as [-> | Ha]; [discriminate |]).
  now apply elem_of_nil in Ha.
Defined.

(** When one record of an animal is strictly later than all its other
    records, the animal counts with the weight of that record, whatever
    its current weight and wherever the record stands in the list. *)
Theorem latest_record_decides (getTime : string -> Z)
    (weightRecords : list WeightRecord) (animal : AnimalRecord)
    (r : WeightRecord) :
  r ∈ weightRecords -> animalId r = id animal ->
  (forall r', r' ∈ weightRecords -> animalId r' = id animal -> r' <> r ->
              (getTime (date r') < getTime (date r))%Z) ->
  latestWeight getTime weightRecords animal = weight r.
Proof.
  intros Hin Hid Hlatest.
  destruct (latestWeight_cases getTime weightRecords animal)
    as [(r0 & Hin0 & Hid0 & Hmax & ->) | [Hnone _]];
    [| now destruct (Hnone r Hin)].
  destruct (decide (r0 = r)) as [-> | Hne]; [reflexivity |].
  specialize (Hlatest r0 Hin0 Hid0 Hne). specialize (Hmax r Hin Hid). lia.
Qed.

Lemma latest_record_decides_witness :
  latestWeight timeOf herdWeights
    {| id := "3"; type := "sheep"; gender := "female"; status := "active";
       currentWeight := Some 10%Q; purchasePrice := None; salePrice := None |}
  = 32%Q.
Proof.
  apply (latest_record_decides timeOf herdWeights _
           {| animalId := "3"; weight := 32%Q; date := "2024-02-05" |}).
  - right. left.
  - reflexivity.
  - intros r' Hr' _ Hne. unfold herdWeights in Hr'.
    apply elem_of_cons in Hr' as [-> | Hr']; [vm_compute; reflexivity |].
    apply elem_of_cons in Hr' as [-> | Hr']; [now destruct Hne |].
    now apply elem_of_nil in Hr'.
Defined.

Lemma Qsum_positive (l : list Q) :
  l <> [] -> (forall x, x ∈ l -> (0 < x)%Q) -> (0 < Qsum l)%Q.
Proof.
  induction l as [| x l IH]; [congruence |]. intros _ Hpos. cbn [Qsum].
  assert (Hx : (0 < x)%Q) by (apply Hpos; left).
  destruct l as [| y l].
  - cbn [Qsum]. now rewrite Qplus_0_r.
  - assert (Hl : (0 < Qsum (y :: l))%Q).
    { apply IH; [discriminate |]. intros z Hz. apply Hpos. now right. }
    rewrite <- (Qplus_0_r 0). now apply Qplus_lt_le_compat; [| apply Qlt_le_weak].
Qed.

(** The average weight is never negative, and it is positive exactly
    when some animal counts with a positive weight; otherwise it is
    the 0 the summary starts with. *)
Theorem averageWeight_sign (getTime : string -> Z)
    (animals : list AnimalRecord) (weightRecords : list WeightRecord) :
  let summary := getAnimalSummary getTime animals weightRecords in
  ((0 < averageWeight summary)%Q
   <-> exists a, a ∈ animals /\ (0 < latestWeight getTime weightRecords a)%Q)
  /\ (~ (0 < averageWeight summary)%Q -> averageWeight summary = 0%Q).
Proof.
  intros summary. subst summary. unfold getAnimalSummary.
  cbn [averageWeight]. unfold animalWeights.
  destruct (filter _ (map (latestWeight getTime weightRecords) animals))
    as [| x rest] eqn:E.
  - cbn [length Nat.ltb Nat.leb]. split; [| reflexivity]. split.
    + intros H. now apply Qlt_irrefl in H.
    + intros (a & Ha & Hpos).
      assert (Hin : latestWeight getTime weightRecords a
                    ∈ filter (fun weight => (0 < weight)%Q)
                        (map (latestWeight getTime weightRecords) animals)).
      { apply list_elem_of_filter. split; [exact Hpos |].
        apply list_elem_of_fmap. eauto. }
      rewrite E in Hin. now apply elem_of_nil in Hin.
  - cbn [length Nat.ltb Nat.leb].
    assert (Hpos : (0 < fold_left (fun sum weight => sum + weight) (x :: rest) 0
                        / inject_Z (Z.of_nat (S (length rest))))%Q).
    { apply Qlt_shift_div_l; [unfold Qlt; cbn; lia |].
      rewrite Qmult_0_l, (fold_left_Qsum (fun weight => weight)), map_id,
        Qplus_0_l.
      apply Qsum_positive; [discriminate |].
      intros y Hy. rewrite <- E in Hy.
      now apply list_elem_of_filter in Hy as [Hy _]. }
    split; [| intros Hn; now destruct Hn]. split; [| intros _; exact Hpos].
    intros _.
    assert (Hin : x ∈ filter (fun weight => (0 < weight)%Q)
                      (map (latestWeight getTime weightRecords) animals))
      by (rewrite E; left).
    apply list_elem_of_filter in Hin as [Hx Hin].
    apply list_elem_of_fmap in Hin as (a & -> & Ha). eauto.
Qed.

End AnimalMore.

(** ** The resolver on a name the table holds twice *)

Module ResolverFacts.
Import Store Expenses StoreFacts ExpenseFacts.

(** Two categories of one name, as a client may send them. *)
Definition feedTwice : list Categories.CategoryConfig :=
  [ {| Categories.id := JStr "1"; Categories.name := JStr "Feed";
       Categories.subCategories := Some [JStr "Hay"] |};
    {| Categories.id := JStr "2"; Categories.name := JStr "Feed";
       Categories.subCategories := Some [JStr "Straw"] |} ].

(** C9, at two states the handlers reach on their own. In the first
    the table holds one row named "Feed" and the call of the first
    lookup fails: the resolver takes the failure for a miss and inserts
    a second row, and the next resolution, answered by the store with
    the error of [.single()] on two rows, inserts a third; the two
    resolutions return 2 and 3. In the second the table holds two rows
    named "Feed" that [saveCategories] stored, and every call is
    answered: the two resolutions return 3 and 4 and leave four rows of
    that name. The branch that inserts is the one the code comments as
    "If category doesn't exist, create it". *)
Theorem resolveCategory_inserts_again_on_duplicates :
  (exists w1 w2,
      map cat_name (categories ExpenseMore.lookupFails) = [JStr "Feed"]
      /\ resolveCategory hay ExpenseMore.lookupFails = (Ok 2%Z, w1)
      /\ resolveCategory hay w1 = (Ok 3%Z, w2)
      /\ fault 0 w1 = false
      /\ map cat_name (categories w2) = [JStr "Feed"; JStr "Feed"; JStr "Feed"])
  /\ (exists w0 w1 w2,
        Categories.saveCategories (Some (map Some feedTwice)) emptyWorld
        = (ExpenseUpdates.Message 200 "Categories saved successfully", w0)
        /\ resolveCategory hay w0 = (Ok 3%Z, w1)
        /\ resolveCategory hay w1 = (Ok 4%Z, w2)
        /\ available w0
        /\ map cat_name (categories w2)
           = [JStr "Feed"; JStr "Feed"; JStr "Feed"; JStr "Feed"]).
Proof.
  split.
  - do 2 eexists. split; [reflexivity |].
    split; [vm_compute; reflexivity |].
    split; [vm_compute; reflexivity |]. split; reflexivity.
  - do 3 eexists. split; [vm_compute; reflexivity |].
    split; [vm_compute; reflexivity |].
    split; [vm_compute; reflexivity |].
    split; [constructor | reflexivity].
Qed.

End ResolverFacts.
